(** * The goes command dispatcher and its pipeline/list evaluator

    A shallow embedding of package [goes] (the file that defines
    [ProcessPipeline], [ProcessCommand], [MakePipefun], [Main], [shift],
    [swap], [ensureTerminated], [ProcessList] and [MakeListFunc]) and the
    properties of it that the specification states.

    The dispatcher [g *Goes] is split in two: the fields that stay put
    while a list is evaluated (the registry, the function table, the
    builtins) are the record [Goes]; the fields the evaluator assigns
    ([Status], [EnvMap], [Verbosity], [inTest]) live in [World], together
    with the process-wide [WG], the closer lists that [ProcessPipeline]
    allocates and shares with its stage closures, what has been written to
    and is still to be read from the streams, and a trace of what the
    evaluator did.  Packages the file imports ([shellutils], [parms],
    [flags], [url], [prog], [cmd], [os]) are the class [Collaborators]. *)

From Stdlib Require Import Ascii.
From stdpp Require Import base option list strings gmap.

Set Default Proof Using "Type".

(** ** Go strings *)

(** A Go [error] is used through its message. *)
Abbreviation error := string.

(** [strings.HasPrefix(s, prefix)] *)
Definition HasPrefix (s prefix : string) : bool := String.prefix prefix s.

(** [strings.HasSuffix(s, suffix)] *)
Definition HasSuffix (s suffix : string) : bool :=
  String.prefix (String.rev suffix) (String.rev s).

Fixpoint in_cutset (c : ascii) (cutset : string) : bool :=
  match cutset with
  | EmptyString => false
  | String d cutset' => if Ascii.eqb c d then true else in_cutset c cutset'
  end.

(** [strings.TrimLeft(s, cutset)]: drop the leading bytes that are in
    [cutset] (every cutset in this file is ASCII). *)
Fixpoint TrimLeft (s cutset : string) : string :=
  match s with
  | EmptyString => EmptyString
  | String c s' => if in_cutset c cutset then TrimLeft s' cutset else s
  end.

(** [strings.Join(elems, " ")] *)
Definition Join (elems : list string) (sep : string) : string :=
  String.concat sep elems.

Fixpoint drop_slashes (s : string) : string :=
  match s with
  | String "/" s' => drop_slashes s'
  | _ => s
  end.

Fixpoint upto_slash (s : string) : string :=
  match s with
  | EmptyString => EmptyString
  | String c s' => if Ascii.eqb c "/" then EmptyString else String c (upto_slash s')
  end.

(** [filepath.Base(path)]: the last element of the path, trailing slashes
    removed; ["."] for the empty path and ["/"] for one made of slashes. *)
Definition filepath_Base (path : string) : string :=
  if String.eqb path "" then "."
  else
    let last := String.rev (upto_slash (drop_slashes (String.rev path))) in
    if String.eqb last "" then "/" else last.

(** The newline that [Println] and [Fprintln] append. *)
Definition nl : string := String "010" EmptyString.

(** [%v] of an error value and of a [[]string]. *)
Definition fmt_error (e : option error) : string :=
  match e with
  | None => "<nil>"
  | Some msg => msg
  end.

Definition fmt_strings (l : list string) : string := "[" +:+ Join l " " +:+ "]".

(** ** Streams *)

Inductive UrlOp := UrlOpen | UrlCreate | UrlAppend.

(** The values that flow through the [stdin], [stdout], [stderr] arguments:
    the three inherited files, the ends of the pipes that [os.Pipe] made (by
    creation number), what [url.Open], [url.Create] and [url.Append]
    returned (by reference and call number), an [io.MultiWriter] over two of
    them, the interactive source [g.Catline], and the nil [*os.File] that
    [pin] holds before the first pipe. *)
Inductive Stream :=
| OsStdin
| OsStdout
| OsStderr
| NilFile
| Catline
| PipeRead (n : nat)
| PipeWrite (n : nat)
| UrlStream (op : UrlOp) (ref : string) (call : nat)
| MultiWriter (a b : Stream).

Global Instance UrlOp_eq_dec : EqDecision UrlOp.
Proof. solve_decision. Defined.

Global Instance Stream_eq_dec : EqDecision Stream.
Proof. solve_decision. Defined.

(** [*os.File] and the url streams implement [io.Closer]; what
    [io.MultiWriter] returns does not. *)
Definition is_Closer (s : Stream) : bool :=
  match s with
  | MultiWriter _ _ => false
  | _ => true
  end.

(** ** shellutils *)

(** A [shellutils.Word] is used through its [String()] only. *)
Abbreviation Word := string.

Record Cmdline := { cl_Cmds : list Word; cl_Term : Word }.

Record List := { Cmds : list Cmdline }.

(** ** The state the evaluator runs in *)

(** One result of [g.Catline.Read(buf)]: the bytes read and the error. *)
Abbreviation CatRead := (string * option string)%type.

(** What a process other than this one can see and change: the data written
    to each stream so far, in order, and the reads the interactive source
    will still deliver. *)
Record Sys := {
  written : list (Stream * string);
  catline_in : list CatRead
}.

(** [exec.Cmd] as [Fork] and [ProcessCommand] fill it in.  [x_Env] is
    [None] while [x.Env] is nil (the child inherits the environment). *)
Record ChildCmd := {
  x_Args : list string;
  x_Env : option (list string);
  x_Stdin : Stream;
  x_Stdout : Stream;
  x_Stderr : Stream
}.

(** The goroutines [ProcessCommand] starts after [WG.Add(1)]. *)
Inductive Task :=
| HereDocWriter (w : Stream) (lbl : string) (trim : bool) (prompt : string)
| ChildWaiter (x : ChildCmd).

(** What the evaluator did to the world outside its own variables, in the
    order it did it: every assignment to [g.Status], every call of
    [url.Open], [url.Create] or [url.Append] with the stream it returned
    ([None] for an error), every successful [os.Pipe()] with the two ends,
    every [Close()], every prompt handed to [shellutils.Parse]. *)
Inductive Event :=
| EvStatus (e : option error)
| EvUrl (op : UrlOp) (ref : string) (r : option Stream)
| EvPipe (r w : Stream)
| EvClose (c : Stream)
| EvParse (prompt : string).

Record World := {
  Status : option error;
  EnvMap : gmap string string;
  Verbosity : nat;
  inTest : bool;
  (** the [closers] slices of the [ProcessPipeline] calls so far; a stage
      closure and its pipeline callable hold the same index *)
  cells : list (list Stream);
  (** goroutines registered with [WG] that have not run yet *)
  WG : list Task;
  npipes : nat;
  sys : Sys;
  trace : list Event
}.

Definition VerboseQuiet : nat := 0.
Definition VerboseVerify : nat := 1.
Definition VerboseDebug : nat := 2.

(** *** Field updates *)

Definition with_trace (t : list Event) (w : World) : World :=
  {| Status := Status w; EnvMap := EnvMap w; Verbosity := Verbosity w;
     inTest := inTest w; cells := cells w; WG := WG w; npipes := npipes w;
     sys := sys w; trace := t |}.

Definition log_event (ev : Event) (w : World) : World :=
  with_trace (trace w ++ [ev]) w.

Definition with_Status (e : option error) (w : World) : World :=
  {| Status := e; EnvMap := EnvMap w; Verbosity := Verbosity w;
     inTest := inTest w; cells := cells w; WG := WG w; npipes := npipes w;
     sys := sys w; trace := trace w ++ [EvStatus e] |}.

Definition with_EnvMap (m : gmap string string) (w : World) : World :=
  {| Status := Status w; EnvMap := m; Verbosity := Verbosity w;
     inTest := inTest w; cells := cells w; WG := WG w; npipes := npipes w;
     sys := sys w; trace := trace w |}.

Definition with_Verbosity (v : nat) (w : World) : World :=
  {| Status := Status w; EnvMap := EnvMap w; Verbosity := v;
     inTest := inTest w; cells := cells w; WG := WG w; npipes := npipes w;
     sys := sys w; trace := trace w |}.

Definition with_inTest (b : bool) (w : World) : World :=
  {| Status := Status w; EnvMap := EnvMap w; Verbosity := Verbosity w;
     inTest := b; cells := cells w; WG := WG w; npipes := npipes w;
     sys := sys w; trace := trace w |}.

Definition with_cells (c : list (list Stream)) (w : World) : World :=
  {| Status := Status w; EnvMap := EnvMap w; Verbosity := Verbosity w;
     inTest := inTest w; cells := c; WG := WG w; npipes := npipes w;
     sys := sys w; trace := trace w |}.

Definition with_WG (t : list Task) (w : World) : World :=
  {| Status := Status w; EnvMap := EnvMap w; Verbosity := Verbosity w;
     inTest := inTest w; cells := cells w; WG := t; npipes := npipes w;
     sys := sys w; trace := trace w |}.

Definition with_npipes (n : nat) (w : World) : World :=
  {| Status := Status w; EnvMap := EnvMap w; Verbosity := Verbosity w;
     inTest := inTest w; cells := cells w; WG := WG w; npipes := n;
     sys := sys w; trace := trace w |}.

Definition with_sys (s : Sys) (w : World) : World :=
  {| Status := Status w; EnvMap := EnvMap w; Verbosity := Verbosity w;
     inTest := inTest w; cells := cells w; WG := WG w; npipes := npipes w;
     sys := s; trace := trace w |}.

(** *** Readings of a trace *)

(** The values assigned to [g.Status]. *)
Definition status_writes (t : list Event) : list (option error) :=
  omap (λ ev, match ev with EvStatus e => Some e | _ => None end) t.

(** The streams closed. *)
Definition closes (t : list Event) : list Stream :=
  omap (λ ev, match ev with EvClose c => Some c | _ => None end) t.

(** The redirection sources and sinks opened: the stream of every [url]
    call that succeeded and the read end of every pipe. *)
Definition opened (t : list Event) : list Stream :=
  omap (λ ev, match ev with
              | EvUrl _ _ (Some s) => Some s
              | EvPipe r _ => Some r
              | _ => None
              end) t.

(** The [url] calls made, successful or not. *)
Definition url_calls (t : list Event) : list (UrlOp * string) :=
  omap (λ ev, match ev with EvUrl op ref _ => Some (op, ref) | _ => None end) t.

(** The prompts the parser was called with. *)
Definition prompts (t : list Event) : list string :=
  omap (λ ev, match ev with EvParse p => Some p | _ => None end) t.

(** [fmt.Fprint] to a stream. *)
Definition sys_write (s : Stream) (data : string) (y : Sys) : Sys :=
  {| written := written y ++ [(s, data)]; catline_in := catline_in y |}.

(** Everything written to stream [s], concatenated. *)
Definition content (s : Stream) (y : Sys) : string :=
  String.concat "" (snd <$> filter (λ p, p.1 = s) (written y)).

(** ** The evaluation monad: state, and a Go panic or an exhausted loop
    budget in place of a result *)

Inductive Outcome (A : Type) :=
| Done (a : A) (w : World)
| Panic (msg : string) (w : World)
| OutOfFuel (w : World).
Global Arguments Done {A} a w.
Global Arguments Panic {A} msg w.
Global Arguments OutOfFuel {A} w.

Definition M (A : Type) : Type := World → Outcome A.

Global Instance M_ret : MRet M := λ A a w, Done a w.

Global Instance M_bind : MBind M := λ A B f m w,
  match m w with
  | Done a w' => f a w'
  | Panic msg w' => Panic msg w'
  | OutOfFuel w' => OutOfFuel w'
  end.

(** The state an evaluation is left in, however it ended. *)
Definition world_of {A} (o : Outcome A) : World :=
  match o with
  | Done _ w => w
  | Panic _ w => w
  | OutOfFuel w => w
  end.

Definition gets {A} (f : World → A) : M A := λ w, Done (f w) w.
Definition modify (f : World → World) : M unit := λ w, Done tt (f w).
Definition panic {A} (msg : string) : M A := λ w, Panic msg w.

(** [g.Status = e] *)
Definition assign_Status (e : option error) : M unit := modify (with_Status e).

(** [fmt.Fprint(s, data)] from this process. *)
Definition write (s : Stream) (data : string) : M unit :=
  modify (λ w, with_sys (sys_write s data (sys w)) w).

(** [c.Close()] *)
Definition Close (c : Stream) : M unit := modify (log_event (EvClose c)).

(** [WG.Add(1); go task] *)
Definition go (t : Task) : M unit := modify (λ w, with_WG (WG w ++ [t]) w).

(** The callable that [ProcessCommand], [MakePipefun], [MakeListFunc] and a
    [Blocker] return, and that a [Function] holds:
    [func(stdin io.Reader, stdout io.Writer, stderr io.Writer) error]. *)
Definition Runfun : Type := Stream → Stream → Stream → M (option error).

(** ** The registry *)

(** Modelled from the spec: [cmd.Kind] and [cmd.WhatKind], which package
    [cmd] defines.  A bitset read from the command object, of which three
    bits matter here. *)
Record Kind := { IsDontFork : bool; IsDaemon : bool; IsCantPipe : bool }.

(** The zero [Kind] that [Main] declares with [var k cmd.Kind]. *)
Definition no_Kind : Kind :=
  {| IsDontFork := false; IsDaemon := false; IsCantPipe := false |}.

(** A [cmd.Cmd] with the optional interfaces the file asks for by type
    assertion: [Blocker] ([cmd_Block]), [goeser] ([cmd_goeser]) and [akaer]
    ([cmd_Aka]).  [Block] returns the residual list and a runner, or an
    error.  [Goes(g)] stores the dispatcher in the command and changes
    nothing of the state kept here. *)
Record Cmd := {
  cmd_Kind : Kind;
  cmd_Main : list string → M (option error);
  cmd_Block : option (List → M (error + List * Runfun));
  cmd_goeser : bool;
  cmd_Aka : option string
}.

Record Function := {
  fn_Name : string;
  fn_Definition : list string;
  RunFun : Runfun
}.

(** The fields of [Goes] that an evaluation reads and does not assign, with
    [g.Builtins()] and [g.Names()], two methods defined elsewhere in the
    package, as the table and the list they return. *)
Record Goes := {
  NAME : string;
  ByName : gmap string Cmd;
  FunctionMap : gmap string Function;
  Builtins : gmap string (list string → M (option error));
  Names : list string
}.

(** ** The packages the file imports *)

Class Collaborators := {
  (** [cl.Slice(lookup)]: the environment overlay and the argv *)
  Slice : Cmdline → (string → string) → gmap string string * list string;
  (** [parms.New(args, names...)]: [ByName] of the result and the
      remaining args *)
  parms_New : list string → list string → (string → string) * list string;
  (** [flags.New(args, names...)] *)
  flags_New : list string → list string → (string → bool) * list string;
  (** [shellutils.Parse(prompt, g.Catline)] *)
  Parse : string → Sys → (error + List) * Sys;
  (** whether [url.Open], [url.Create], [url.Append] fail on a reference *)
  url_err : UrlOp → string → option error;
  (** whether the n-th [os.Pipe()] fails *)
  pipe_err : nat → option error;
  (** [x.Args] of [prog.Command(append(g.Path(), args...)...)] *)
  Fork_Args : list string → list string;
  (** [x.Start()] and [x.Wait()] of a child *)
  child_Start : ChildCmd → option error;
  child_Wait : ChildCmd → Sys → option error * Sys;
  os_Getenv : string → string;
  os_Environ : list string;
  os_Args0 : string;
  (** [ioutil.ReadFile]: the content, or [None] for an error *)
  ReadFile : string → option string;
  utf8_Valid : string → bool;
  (** the texts of [Usage(g)] and [g.Apropos()] *)
  Usage : string;
  Apropos : string
}.

Section Evaluator.
Context `{Collaborators}.

(** [os.Pipe()] *)
Definition os_Pipe : M (error + Stream * Stream) := λ w,
  match pipe_err (npipes w) with
  | Some e => Done (inl e) w
  | None =>
      let r := PipeRead (npipes w) in
      let wr := PipeWrite (npipes w) in
      Done (inr (r, wr)) (log_event (EvPipe r wr) (with_npipes (S (npipes w)) w))
  end.

(** [url.Open(fn)], [url.Create(fn)], [url.Append(fn)] *)
Definition url_call (op : UrlOp) (fn : string) : M (error + Stream) := λ w,
  match url_err op fn with
  | Some e => Done (inl e) (log_event (EvUrl op fn None) w)
  | None =>
      let s := UrlStream op fn (length (trace w)) in
      Done (inr s) (log_event (EvUrl op fn (Some s)) w)
  end.

(** the slice [closers] points to *)
Definition read_closers (closers : nat) (w : World) : list Stream :=
  default [] (cells w !! closers).

(** append [c] to the slice [closers] points to *)
Definition append_closer (closers : nat) (c : Stream) : M unit :=
  modify (λ w, with_cells (alter (λ l, l ++ [c]) closers (cells w)) w).

(** [var closers []io.Closer] of one [ProcessPipeline] call *)
Definition new_closers : M nat := λ w,
  Done (length (cells w)) (with_cells (cells w ++ [[]]) w).

(** ** The goroutines *)

Definition space_tab : string := String " " (String "009" EmptyString).

(** The here-document writer (the [for] loop of the goroutine started for
    [<<] and [<<-]): prompt, read, stop on an error or on the label, trim,
    write the line. *)
Fixpoint heredoc_loop (w : Stream) (lbl : string) (trim : bool)
    (prompt : string) (reads : list CatRead) (log : list (Stream * string))
    : Sys :=
  let log := log ++ [(Catline, prompt)] in
  match reads with
  | [] => {| written := log; catline_in := [] |}
  | (s, err) :: reads' =>
      if bool_decide (err ≠ None) || String.eqb s lbl
      then {| written := log; catline_in := reads' |}
      else
        let s := if trim then TrimLeft s space_tab else s in
        heredoc_loop w lbl trim prompt reads' (log ++ [(w, s +:+ nl)])
  end.

(** The goroutine's body with its deferred [w.Close()]. *)
Definition heredoc_writer (w : Stream) (lbl : string) (trim : bool)
    (prompt : string) (wo : World) : World :=
  let y := heredoc_loop w lbl trim prompt (catline_in (sys wo)) (written (sys wo)) in
  log_event (EvClose w) (with_sys y wo).

(** Whether [err != nil && err.Error() != "exit status 1"]. *)
Definition loud (err : option error) : bool :=
  match err with
  | None => false
  | Some msg => negb (String.eqb msg "exit status 1")
  end.

(** The waiter of a child whose stdout was redirected: wait, report the
    error unless it is the silent one, close the child's stdout and stdin
    when they are not the inherited ones and can be closed. *)
Definition child_waiter (x : ChildCmd) (wo : World) : World :=
  let '(err, y) := child_Wait x (sys wo) in
  let y := if loud err then sys_write OsStderr (fmt_error err +:+ nl) y else y in
  let c1 := if bool_decide (x_Stdout x ≠ OsStdout) && is_Closer (x_Stdout x)
            then [x_Stdout x] else [] in
  let c2 := if bool_decide (x_Stdin x ≠ OsStdin) && is_Closer (x_Stdin x)
            then [x_Stdin x] else [] in
  with_trace (trace wo ++ (EvClose <$> c1 ++ c2)) (with_sys y wo).

Definition run_task (t : Task) (wo : World) : World :=
  match t with
  | HereDocWriter w lbl trim prompt => heredoc_writer w lbl trim prompt wo
  | ChildWaiter x => child_waiter x wo
  end.

(** [WG.Wait()]: the registered goroutines run to their end, taken in the
    order of their registration. *)
Definition WG_Wait : M unit :=
  modify (λ w, foldl (λ w t, run_task t w) (with_WG [] w) (WG w)).

(** ** Redirection tests *)

Definition isStdinRedirected (stdin : Stream) : bool :=
  match stdin with
  | OsStdin => false
  | _ => true
  end.

Definition isStdoutRedirected (stdout : Stream) : bool :=
  match stdout with
  | OsStdout => false
  | _ => true
  end.

Definition isStderrRedirected (stderr : Stream) : bool :=
  match stderr with
  | OsStderr => false
  | _ => true
  end.

Definition isRedirected (stdin stdout stderr : Stream) : bool :=
  isStdinRedirected stdin || isStdoutRedirected stdout
  || isStderrRedirected stderr.

(** ** Argv normalization *)

(** [copy(args[1:i+1], args[:i])] *)
Definition copy_up (args : list string) (i : nat) : list string :=
  take 1 args ++ take i args ++ drop (S i) args.

(** The inner loop of [shift]: the number of names that [arg] is a prefix
    of, and the last of them. *)
Definition prefix_matches (names : list string) (arg : string) : nat * string :=
  foldl (λ '(matches, last) name,
           if HasPrefix name arg then (S matches, name) else (matches, last))
        (0, "") names.

(** The loop of [shift] from index [i] on, [n] indices to go; the slice is
    changed in place, so the result is the flag and the new [args]. *)
Fixpoint shift_from (g : Goes) (args : list string) (i n : nat)
    : bool * list string :=
  match n with
  | 0 => (false, args)
  | S n' =>
      match args !! i with
      | None => (false, args)
      | Some a =>
          match ByName g !! a with
          | Some _ =>
              (true, if 0 <? i then <[0:=a]> (copy_up args i) else args)
          | None =>
              let '(matches, last) := prefix_matches (Names g) a in
              if matches =? 1
              then (true, <[0:=last]> (if 0 <? i then copy_up args i else args))
              else shift_from g args (S i) n'
          end
      end
  end.

Definition shift (g : Goes) (args : list string) : bool * list string :=
  shift_from g args 0 (length args).

Definition swap (g : Goes) (args : list string) : list string :=
  match args with
  | [] => args
  | a0 :: rest =>
      if HasPrefix a0 "-" then
        let opt := TrimLeft a0 "-" in
        match Builtins g !! opt with
        | Some _ => opt :: rest
        | None => args
        end
      else
        match rest with
        | a1 :: rest' =>
            let opt := TrimLeft a1 "-" in
            match Builtins g !! opt with
            | Some _ => opt :: a0 :: rest'
            | None => args
            end
        | [] => args
        end
  end.

(** ** Main *)

(** The head of [Main]: flag a test binary, drop a leading
    ["/proc/self/exe"] or debug binary, then the name of this program. *)
Definition Main_argv0 (g : Goes) (args : list string) : M (list string) :=
  args ←
    (if HasSuffix os_Args0 ".test" then
       modify (with_inTest true);; mret args
     else
       match args with
       | a0 :: rest =>
           if HasSuffix a0 "__debug_bin" then
             modify (with_inTest true);; mret rest
           else if String.eqb a0 "/proc/self/exe" then mret rest
           else mret args
       | [] => mret args
       end);
  mret
    match args with
    | a0 :: rest =>
        let base := filepath_Base a0 in
        if String.eqb (NAME g) "goes-installer" then
          if length args =? 1 then <[0:="install"]> args else rest
        else if String.eqb base (NAME g) then rest
        else if String.eqb base "goes" then rest
        else args
    | [] => args
    end.

(** The branch of [Main] for an [args[0]] that is not in the registry:
    either [Main] returns there ([inl]) or it goes on with the args
    ([inr]). *)
Definition Main_cli (g : Goes) (args : list string)
    : M (option error + list string) :=
  let cli := ByName g !! "cli" in
  match cli with
  | Some c => if cmd_goeser c then mret tt else panic "interface conversion"
  | None => mret tt
  end;;
  let '(cliFlags, cliArgs) := flags_New args ["-debug"; "-f"; "-no-liner"; "-x"] in
  v ← gets Verbosity;
  (if cliFlags "-debug" && (v <? VerboseDebug)
   then modify (with_Verbosity VerboseDebug) else mret tt);;
  match cliArgs with
  | [] =>
      match cli with
      | Some c =>
          let cliArgs := cliArgs ++ (if cliFlags "-no-liner" then ["-no-liner"] else []) in
          let cliArgs := cliArgs ++ (if cliFlags "-x" then ["-x"] else []) in
          e ← cmd_Main c cliArgs;
          assign_Status e;; mret (inl e)
      | None =>
          match ByName g !! "" with
          | Some def =>
              e ← cmd_Main def [];
              assign_Status e;; mret (inl e)
          | None =>
              write OsStdout (Usage +:+ nl);;
              assign_Status None;; mret (inl None)
          end
      end
  | [a] =>
      let buf := ReadFile a in
      if String.eqb a "-"
         || match buf with
            | Some b => utf8_Valid b && HasPrefix b "#!/usr/bin/goes"
            | None => false
            end
      then
        match cli with
        | None => assign_Status (Some "has no cli");; mret (inl (Some "has no cli"))
        | Some c =>
            let cliArgs := cliArgs ++ (if cliFlags "-f" then ["-f"] else []) in
            let cliArgs := cliArgs ++ (if cliFlags "-x" then ["-x"] else []) in
            e ← cmd_Main c cliArgs;
            assign_Status e;; mret (inl e)
        end
      else mret (inr cliArgs)
  | _ => mret (inr (swap g args))
  end.

(** The rest of [Main], from the builtin test on.  [v] is the registry
    entry found for [args[0]] before ([None]: not found) and [k] its kind,
    which the lookup after [shift] does not refresh. *)
Definition Main_run (g : Goes) (args : list string) (v : option Cmd) (k : Kind)
    : M (option error) :=
  match args with
  | [] => panic "index out of range"
  | a0 :: rest =>
      let continue : M (option error) :=
        let '(shifted, args) := shift g args in
        let a0 := default "" (head args) in
        let v := if shifted then ByName g !! a0 else v in
        st ← gets Status;
        vb ← gets Verbosity;
        (if VerboseDebug <=? vb
         then write OsStdout ("$=" +:+ fmt_error st +:+ " " +:+ fmt_strings args +:+ nl)
         else mret tt);;
        let resolved : option error + Cmd * list string :=
          match v with
          | None =>
              match ByName g !! "" with
              | None => inl (Some (a0 +:+ ": ambiguous or missing command"))
              | Some def => inr (def, "" :: args)
              end
          | Some c => inr (c, args)
          end in
        match resolved with
        | inl e => assign_Status e;; mret e
        | inr (c, args) =>
            if IsDaemon k then
              err ← cmd_Main c (tail args);
              WG_Wait;; mret err
            else
              err ← cmd_Main c (tail args);
              let err :=
                match err with
                | None => None
                | Some msg =>
                    let name := default "" (head args) in
                    let name :=
                      if String.length name =? 0 then
                        match cmd_Aka c with
                        | Some aka => "(" +:+ aka +:+ ")"
                        | None => name
                        end
                      else name in
                    Some (name +:+ ": " +:+ msg)
                end in
              assign_Status err;; mret err
        end in
      match Builtins g !! a0 with
      | Some builtin =>
          e ← builtin rest;
          assign_Status e;; mret e
      | None =>
          if (length args =? 1) && HasPrefix a0 "-" then
            let arg0 := TrimLeft a0 "-" in
            if String.eqb arg0 "apropos" then
              write OsStdout (Apropos +:+ nl);; mret None
            else
              match Builtins g !! arg0 with
              | Some builtin =>
                  e ← builtin [];
                  assign_Status e;; mret e
              | None => continue
              end
          else continue
      end
  end.

Definition Main (g : Goes) (args : list string) : M (option error) :=
  args ← Main_argv0 g args;
  let v := match args with
           | a0 :: _ => ByName g !! a0
           | [] => None
           end in
  let k := match v with
           | Some c => cmd_Kind c
           | None => no_Kind
           end in
  match v with
  | Some _ => Main_run g args v k
  | None =>
      r ← Main_cli g args;
      match r with
      | inl e => mret e
      | inr args => Main_run g args v k
      end
  end.

(** ** The command executor *)

(** The stdin half of the redirection binder in [ProcessCommand]: the
    stream the child reads and the args left, or the error to return. *)
Definition bind_stdin (closers : nat) (stdin : Stream) (args : list string)
    : M (error + Stream * list string) :=
  if negb (isStdinRedirected stdin) then
    let '(iparm, args) := parms_New args ["<"; "<<"; "<<-"] in
    let fn := iparm "<" in
    if 0 <? String.length fn then
      r ← url_call UrlOpen fn;
      match r with
      | inl err => mret (inl err)
      | inr rc => append_closer closers rc;; mret (inr (rc, args))
      end
    else if (0 <? String.length (iparm "<<")) || (0 <? String.length (iparm "<<-")) then
      let lbl := iparm "<<" in
      let '(lbl, trim) :=
        if String.length lbl =? 0 then (iparm "<<-", true) else (lbl, false) in
      p ← os_Pipe;
      match p with
      | inl err => mret (inl err)
      | inr (r, w) =>
          append_closer closers r;;
          go (HereDocWriter w lbl trim ("<<" +:+ fn +:+ " "));;
          mret (inr (r, args))
      end
    else mret (inr (stdin, args))
  else mret (inr (stdin, args)).

(** The stdout half.  The fourth test reads [">>"], as the second does. *)
Definition bind_stdout (closers : nat) (stdout : Stream) (args : list string)
    : M (error + Stream * list string) :=
  if negb (isStdoutRedirected stdout) then
    let '(oparm, args) := parms_New args [">"; ">>"; ">>>"; ">>>>"] in
    if 0 <? String.length (oparm ">") then
      r ← url_call UrlCreate (oparm ">");
      match r with
      | inl err => mret (inl err)
      | inr wc => append_closer closers wc;; mret (inr (wc, args))
      end
    else if 0 <? String.length (oparm ">>") then
      r ← url_call UrlAppend (oparm ">>");
      match r with
      | inl err => mret (inl err)
      | inr wc => append_closer closers wc;; mret (inr (wc, args))
      end
    else if 0 <? String.length (oparm ">>>") then
      r ← url_call UrlCreate (oparm ">>>");
      match r with
      | inl err => mret (inl err)
      | inr wc =>
          append_closer closers wc;; mret (inr (MultiWriter OsStdout wc, args))
      end
    else if 0 <? String.length (oparm ">>") then
      r ← url_call UrlAppend (oparm ">>");
      match r with
      | inl err => mret (inl err)
      | inr wc =>
          append_closer closers wc;; mret (inr (MultiWriter OsStdout wc, args))
      end
    else mret (inr (stdout, args))
  else mret (inr (stdout, args)).

(** [g.Fork(args...)] *)
Definition Fork (g : Goes) (args : list string) : M ChildCmd :=
  vb ← gets Verbosity;
  st ← gets Status;
  (if VerboseDebug <=? vb
   then write OsStdout ("F*$=" +:+ fmt_error st +:+ " " +:+ fmt_strings args +:+ nl)
   else mret tt);;
  mret {| x_Args := Fork_Args args; x_Env := None;
          x_Stdin := NilFile; x_Stdout := NilFile; x_Stderr := NilFile |}.

(** [x.Wait()] in the foreground. *)
Definition Wait (x : ChildCmd) : M (option error) := λ w,
  let '(err, y) := child_Wait x (sys w) in Done err (with_sys y w).

(** The fork path of [ProcessCommand], from [in := stdin] to the end of the
    closure. *)
Definition fork_path (g : Goes) (closers : nat) (envMap : gmap string string)
    (args : list string) (stdin stdout stderr : Stream) : M (option error) :=
  ri ← bind_stdin closers stdin args;
  match ri with
  | inl err => mret (Some err)
  | inr (in_, args) =>
      ro ← bind_stdout closers stdout args;
      match ro with
      | inl err => mret (Some err)
      | inr (out, args) =>
          let envStr :=
            if negb (size envMap =? 0)
            then (λ '(k, v), k +:+ "=" +:+ v) <$> map_to_list envMap
            else [] in
          vb ← gets Verbosity;
          (if VerboseVerify <=? vb
           then write OsStdout ("+ " +:+ Join envStr " " +:+ " " +:+ Join args " " +:+ nl)
           else mret tt);;
          x ← Fork g args;
          let x :=
            {| x_Args := x_Args x;
               x_Env := if negb (length envStr =? 0)
                        then Some (os_Environ ++ envStr) else x_Env x;
               x_Stdin := in_; x_Stdout := out; x_Stderr := stderr |} in
          match child_Start x with
          | Some err =>
              mret (Some ("child: " +:+ fmt_strings (x_Args x) +:+ ": " +:+ err))
          | None =>
              (if negb (isStdoutRedirected stdout) then
                 err ← Wait x;
                 assign_Status err;;
                 (if loud err
                  then write OsStderr (fmt_error err +:+ nl) else mret tt)
               else go (ChildWaiter x));;
              mret None
          end
      end
  end.

(** [g.ProcessCommand(cl, &closers)]: the closure it returns (the error it
    returns with it is always nil). *)
Definition ProcessCommand (g : Goes) (cl : Cmdline) (closers : nat) : Runfun :=
  λ stdin stdout stderr,
  env ← gets EnvMap;
  let '(envMap, args) :=
    Slice cl (λ k, match env !! k with
                   | Some v => v
                   | None => os_Getenv k
                   end) in
  match args with
  | [] =>
      (if negb (size envMap =? 0)
       then modify (with_EnvMap (envMap ∪ env));; assign_Status None
       else mret tt);;
      mret None
  | name :: _ =>
      match FunctionMap g !! name with
      | Some f => RunFun f stdin stdout stderr
      | None =>
          match ByName g !! name with
          | Some v =>
              let k := cmd_Kind v in
              if IsDaemon k then
                mret (Some ("use `goes-daemons start " +:+ name +:+ "`"))
              else if isRedirected stdin stdout stderr && IsCantPipe k then
                mret (Some (name +:+ ": can't pipe"))
              else
                t ← gets inTest;
                if IsDontFork k || t || String.eqb name os_Args0
                then Main g args
                else fork_path g closers envMap args stdin stdout stderr
          | None =>
              match Builtins g !! name with
              | Some builtin => builtin (tail args)
              | None => mret (Some (name +:+ ": command not found"))
              end
          end
      end
  end.

(** ** The pipeline composer *)

(** The [for i, runfun := range pipeline] loop of the callable: [in_] is
    [in]; the stage is the last one when nothing follows it. *)
Fixpoint pipe_loop (pipeline : list Runfun) (in_ stdout stderr : Stream)
    : M (option error) :=
  match pipeline with
  | [] => mret None
  | runfun :: rest =>
      match rest with
      | [] => runfun in_ stdout stderr
      | _ :: _ =>
          p ← os_Pipe;
          match p with
          | inl err => mret (Some err)
          | inr (pin, pout) =>
              err ← runfun in_ pout stderr;
              match err with
              | Some _ => mret err
              | None => pipe_loop rest pin stdout stderr
              end
          end
      end
  end.

(** The deferred function: [for _, c := range *closers { c.Close() }]. *)
Definition drain (closers : nat) (w : World) : World :=
  with_trace (trace w ++ (EvClose <$> read_closers closers w)) w.

(** [g.MakePipefun(pipeline, &closers)].  The deferred drain runs when the
    callable returns and when it panics. *)
Definition MakePipefun (pipeline : list Runfun) (closers : nat) : Runfun :=
  λ stdin stdout stderr w,
  match pipe_loop pipeline stdin stdout stderr w with
  | Done err w' => Done err (drain closers w')
  | Panic msg w' => Panic msg (drain closers w')
  | OutOfFuel w' => OutOfFuel w'
  end.

(** What [if term.String() != "|" { isLast = true }] leaves in [isLast]. *)
Definition last_after (term : Word) (isLast : bool) : bool :=
  if negb (String.eqb term "|") then true else isLast.

(** The [for len(ls.Cmds) != 0 && !isLast] loop of [ProcessPipeline].  A
    [Blocker] may hand back any list, so the loop carries a budget. *)
Fixpoint ProcessPipeline_loop (fuel : nat) (g : Goes) (closers : nat)
    (ls : List) (term : Word) (isLast : bool) (pipeline : list Runfun)
    : M (error + List * Word * list Runfun) :=
  match Cmds ls with
  | [] => mret (inr (ls, term, pipeline))
  | cl :: rest =>
      if isLast then mret (inr (ls, term, pipeline))
      else
        match fuel with
        | 0 => λ w, OutOfFuel w
        | S fuel' =>
            let term := cl_Term cl in
            let isLast := last_after term isLast in
            match cl_Cmds cl with
            | [] => panic "index out of range"
            | name :: _ =>
                match ByName g !! name ≫= cmd_Block with
                | Some Block =>
                    r ← Block ls;
                    match r with
                    | inl err => mret (inl err)
                    | inr (newls, runfun) =>
                        match Cmds newls with
                        | [] => panic "index out of range"
                        | cl :: rest =>
                            let term := cl_Term cl in
                            let isLast := last_after term isLast in
                            ProcessPipeline_loop fuel' g closers
                              {| Cmds := rest |} term isLast
                              (pipeline ++ [runfun])
                        end
                    end
                | None =>
                    let runfun := ProcessCommand g cl closers in
                    ProcessPipeline_loop fuel' g closers
                      {| Cmds := rest |} term isLast (pipeline ++ [runfun])
                end
            end
        end
  end.

(** [g.ProcessPipeline(ls)]: an error, or the residual list, the terminator
    that ended the pipeline and the composed callable. *)
Definition ProcessPipeline (fuel : nat) (g : Goes) (ls : List)
    : M (error + List * Word * Runfun) :=
  closers ← new_closers;
  r ← ProcessPipeline_loop fuel g closers ls "" false [];
  match r with
  | inl err => mret (inl err)
  | inr (ls, term, pipeline) =>
      mret (inr (ls, term, MakePipefun pipeline closers))
  end.

(** ** The list composer *)

Definition is_continuation (term : string) : bool :=
  String.eqb term "||" || String.eqb term "&&" || String.eqb term "|".

(** The inner [for _, cl := range ls.Cmds] of [ensureTerminated]: [None]
    when it returns from the function, otherwise the [term] it ends with. *)
Fixpoint scan_terms (term : string) (cmds : list Cmdline) : option string :=
  match cmds with
  | [] => Some term
  | cl :: rest =>
      let term := cl_Term cl in
      if negb (is_continuation term) then None else scan_terms term rest
  end.

(** [shellutils.Parse(prompt, g.Catline)] *)
Definition call_Parse (prompt : string) : M (error + List) := λ w,
  let '(r, y) := Parse prompt (sys w) in
  Done r (log_event (EvParse prompt) (with_sys y w)).

(** [g.ensureTerminated(ls)]; the outer [for] runs as long as the parser
    delivers continuations, so it carries a budget. *)
Fixpoint ensureTerminated (fuel : nat) (g : Goes) (ls : List)
    : M (error + List) :=
  match scan_terms "" (Cmds ls) with
  | None => mret (inr ls)
  | Some term =>
      match fuel with
      | 0 => λ w, OutOfFuel w
      | S fuel' =>
          r ← call_Parse (term +:+ ">>");
          match r with
          | inl err => mret (inl err)
          | inr newls =>
              ensureTerminated fuel' g {| Cmds := Cmds ls ++ Cmds newls |}
          end
      end
  end.

Record piperun := { pr_f : Runfun; pr_t : Word }.

(** The loop of the callable of [MakeListFunc]. *)
Fixpoint listfun_loop (pipeline : list piperun) (err : option error)
    (skipNext : bool) (stdin stdout stderr : Stream) : M (option error) :=
  match pipeline with
  | [] => mret err
  | runfun :: rest =>
      let term := pr_t runfun in
      '(err, skipNext) ←
        (if negb skipNext then
           err ← pr_f runfun stdin stdout stderr;
           (if bool_decide (err ≠ None) then assign_Status err else mret tt);;
           mret (err, false)
         else mret (err, skipNext));
      st ← gets Status;
      let skipNext :=
        if bool_decide (st ≠ None) then
          if String.eqb term "&&" then true else skipNext
        else
          if String.eqb term "||" then true else skipNext in
      listfun_loop rest err skipNext stdin stdout stderr
  end.

(** [g.MakeListFunc(pipeline)] *)
Definition MakeListFunc (pipeline : list piperun) : Runfun :=
  λ stdin stdout stderr, listfun_loop pipeline None false stdin stdout stderr.

(** The [for len(ls.Cmds) != 0] loop of [ProcessList]. *)
Fixpoint ProcessList_loop (fuel : nat) (g : Goes) (ls : List)
    (pipeline : list piperun) : M (error + List * list piperun) :=
  match Cmds ls with
  | [] => mret (inr (ls, pipeline))
  | _ :: _ =>
      match fuel with
      | 0 => λ w, OutOfFuel w
      | S fuel' =>
          r ← ProcessPipeline (S fuel') g ls;
          match r with
          | inl err => mret (inl err)
          | inr (nextls, term, runner) =>
              let pipeline := pipeline ++ [{| pr_f := runner; pr_t := term |}] in
              if negb (String.eqb term "&&") && negb (String.eqb term "||")
              then mret (inr (nextls, pipeline))
              else ProcessList_loop fuel' g nextls pipeline
          end
      end
  end.

(** [g.ProcessList(ls)]: an error, or the residual list, a terminator and
    the composed callable.  The terminator is the function's own [term],
    which the loop's [term] shadows: it is never assigned. *)
Definition ProcessList (fuel : nat) (g : Goes) (ls : List)
    : M (error + List * Word * Runfun) :=
  r ← ensureTerminated fuel g ls;
  match r with
  | inl err => mret (inl err)
  | inr ls =>
      r ← ProcessList_loop fuel g ls [];
      match r with
      | inl err => mret (inl err)
      | inr (ls, pipeline) => mret (inr (ls, "", MakeListFunc pipeline))
      end
  end.

End Evaluator.

(** ** The words of the specification, as definitions to compare with *)




(** How [shift] reads one token: a registry entry of that name, or else the
    one name of the registry that the token is a prefix of. *)
Definition resolve (g : Goes) (a : string) : option string :=
  match ByName g !! a with
  | Some _ => Some a
  | None =>
      match filter (λ name, HasPrefix name a = true) (Names g) with
      | [name] => Some name
      | _ => None
      end
  end.

(** Whether [ensureTerminated] returns the list as it is: some command line
    of it ends in a terminator that is not a continuation. *)
Definition terminated (ls : List) : bool :=
  existsb (λ cl, negb (is_continuation (cl_Term cl))) (Cmds ls).

(** The last terminator of a list, the empty string for the empty list. *)
Definition last_term (ls : List) : string :=
  default "" (cl_Term <$> last (Cmds ls)).

(** The first token of [args] that resolves, with its position ([i] counts
    the tokens before [args]). *)
Fixpoint first_resolved (g : Goes) (i : nat) (args : list string)
    : option (nat * string) :=
  match args with
  | [] => None
  | a :: args' =>
      match resolve g a with
      | Some name => Some (i, name)
      | None => first_resolved g (S i) args'
      end
  end.

(** The state after the list callable has looked at the error [e] that a
    pipeline returned in [w]: [if err != nil { g.Status = err }]. *)
Definition recorded (e : option error) (w : World) : World :=
  if bool_decide (e ≠ None) then with_Status e w else w.

(** The events of a run from [w] to [w']. *)
Definition new_events (w w' : World) : list Event :=
  drop (length (trace w)) (trace w').

Definition is_writer (t : Task) : Prop :=
  match t with
  | HereDocWriter _ _ _ _ => True
  | ChildWaiter _ => False
  end.

(** What the redirection binder may do between [w] and [w']: it assigns no
    [Status] and closes nothing, the closer list [closers] grows by exactly
    the sources and sinks it opened, in the order it opened them, and the
    only goroutines it starts are here-document writers. *)
Definition quiet (closers : nat) (w w' : World) : Prop :=
  Status w' = Status w
  ∧ length (cells w') = length (cells w)
  ∧ (∃ evs, trace w' = trace w ++ evs
            ∧ status_writes evs = []
            ∧ closes evs = []
            ∧ (closers < length (cells w) →
               read_closers closers w' = read_closers closers w ++ opened evs))
  ∧ (∃ tasks, WG w' = WG w ++ tasks ∧ Forall is_writer tasks).

(** The same collaborators with another behaviour of the children at
    [Wait]. *)
Definition with_child_Wait (H : Collaborators)
    (cw : ChildCmd → Sys → option error * Sys) : Collaborators :=
  Build_Collaborators Slice parms_New flags_New Parse url_err pipe_err
    Fork_Args child_Start cw os_Getenv os_Environ os_Args0 ReadFile
    utf8_Valid Usage Apropos.

(** ** Concrete collaborators for the scenarios of the specification *)

Module Scenarios.

(** Modelled from the spec: [parms.New] of package [parms].  The binder
    scans argv for the redirection tokens; a token that is one of [names]
    is taken out of argv together with the token after it, which is its
    value (the first occurrence of a name decides); what remains is the
    program's argv. *)
Fixpoint parms_scan (names args : list string) : list (string * string) * list string :=
  match args with
  | [] => ([], [])
  | a :: rest =>
      match rest with
      | v :: rest' =>
          if bool_decide (a ∈ names) then
            let '(found, remain) := parms_scan names rest' in ((a, v) :: found, remain)
          else
            let '(found, remain) := parms_scan names rest in (found, a :: remain)
      | [] => ([], [a])
      end
  end.

Fixpoint assoc (k : string) (l : list (string * string)) : string :=
  match l with
  | [] => ""
  | (k', v) :: l' => if String.eqb k k' then v else assoc k l'
  end.

Definition parms_New (args names : list string) : (string → string) * list string :=
  let '(found, remain) := parms_scan names args in (λ k, assoc k found, remain).

(** Modelled from the spec: [flags.New] of package [flags].  The flags
    named are taken out of the args and reported as set. *)
Definition flags_New (args names : list string) : (string → bool) * list string :=
  (λ k, bool_decide (k ∈ names) && bool_decide (k ∈ args),
   filter (λ a, a ∉ names) args).

(** Modelled from the spec: [Cmdline.Slice] of package [shellutils], on a
    command line that starts with no [NAME=VALUE] token and holds no
    variable reference: no overlay, and the tokens are the argv. *)
Definition Slice (cl : Cmdline) (lookup : string → string)
    : gmap string string * list string :=
  (∅, cl_Cmds cl).

(** The children of the scenarios: [false] exits with status 1, [echo]
    writes its arguments and a newline to its stdout, every other program
    exits with status 0 and writes nothing. *)
Definition child_Wait (x : ChildCmd) (y : Sys) : option error * Sys :=
  match tail (x_Args x) with
  | "false" :: _ => (Some "exit status 1", y)
  | "echo" :: words => (None, sys_write (x_Stdout x) (Join words " " +:+ nl) y)
  | _ => (None, y)
  end.

Definition collab : Collaborators :=
  Build_Collaborators
    Slice parms_New flags_New
    (λ _ y, (inl "EOF", y))
    (λ _ _, None)
    (λ _, None)
    (λ args, "goes" :: args)
    (λ _, None)
    child_Wait
    (λ _, "")
    []
    "/usr/bin/goes"
    (λ _, None)
    (λ _, true)
    "usage"
    "".

(** A command of the registry with no special kind and none of the optional
    interfaces; [Main] reports that it ran by writing its args to stdout. *)
Definition plain (name : string) : Cmd :=
  {| cmd_Kind := no_Kind;
     cmd_Main := λ args, write OsStdout (name +:+ " " +:+ fmt_strings args +:+ nl);; mret None;
     cmd_Block := None;
     cmd_goeser := false;
     cmd_Aka := None |}.

Definition registry (names : list string) : gmap string Cmd :=
  list_to_map ((λ name, (name, plain name)) <$> names).

Definition goes_with (reg : gmap string Cmd) (names : list string) : Goes :=
  {| NAME := "goes"; ByName := reg; FunctionMap := ∅; Builtins := ∅;
     Names := names |}.

(** The dispatcher of the shell scenarios. *)
Definition g : Goes :=
  let names := ["cat"; "echo"; "false"; "somecmd"; "tr"] in
  goes_with (registry names) names.

(** The state before anything ran, with the given reads waiting on the
    interactive source. *)
Definition start (reads : list CatRead) : World :=
  {| Status := None; EnvMap := ∅; Verbosity := VerboseQuiet; inTest := false;
     cells := []; WG := []; npipes := 0;
     sys := {| written := []; catline_in := reads |};
     trace := [] |}.

Definition cmdline (words : list string) (term : string) : Cmdline :=
  {| cl_Cmds := words; cl_Term := term |}.

(** [false && echo yes || echo no] *)
Definition false_yes_no : List :=
  {| Cmds := [cmdline ["false"] "&&"; cmdline ["echo"; "yes"] "||";
              cmdline ["echo"; "no"] ""] |}.

(** [somecmd >>>> FILE] and [somecmd > /tmp/x >>> /tmp/y] *)
Definition append_tee : List :=
  {| Cmds := [cmdline ["somecmd"; ">>>>"; "FILE"] ""] |}.

Definition create_and_tee : List :=
  {| Cmds := [cmdline ["somecmd"; ">"; "/tmp/x"; ">>>"; "/tmp/y"] ""] |}.

(** [somecmd < in > out] *)
Definition in_and_out : List :=
  {| Cmds := [cmdline ["somecmd"; "<"; "in"; ">"; "out"] ""] |}.

(** [echo hello | tr a-z A-Z] *)
Definition echo_tr : List :=
  {| Cmds := [cmdline ["echo"; "hello"] "|"; cmdline ["tr"; "a-z"; "A-Z"] ""] |}.



(** The registries of the [ip -s li] scenario. *)
Definition ip_link_list : Goes :=
  let names := ["ip"; "link"; "list"] in goes_with (registry names) names.

Definition ip_link : Goes :=
  let names := ["ip"; "link"] in goes_with (registry names) names.

(** A registry with a command that cannot be piped ([vi]), a daemon that
    cannot be piped either ([sshd]), and a [Blocker] ([if]) that consumes
    the whole list it is given. *)
Definition of_kind (name : string) (k : Kind) : Cmd :=
  {| cmd_Kind := k; cmd_Main := cmd_Main (plain name); cmd_Block := None;
     cmd_goeser := false; cmd_Aka := None |}.

Definition greedy_blocker (name : string) : Cmd :=
  {| cmd_Kind := no_Kind; cmd_Main := cmd_Main (plain name);
     cmd_Block := Some (λ _, mret (inr ({| Cmds := [] |}, λ _ _ _, mret None)));
     cmd_goeser := false; cmd_Aka := None |}.

Definition kinds : Goes :=
  goes_with
    (<["vi" := of_kind "vi" {| IsDontFork := false; IsDaemon := false; IsCantPipe := true |}]>
       (<["sshd" := of_kind "sshd" {| IsDontFork := false; IsDaemon := true; IsCantPipe := true |}]>
          (<["if" := greedy_blocker "if"]> (registry ["echo"]))))
    ["echo"; "if"; "sshd"; "vi"].

(** Build the callable of a list with [ProcessList] and call it on the
    inherited streams. *)
Definition run_list `{Collaborators} (g : Goes) (ls : List) : M (option error) :=
  r ← ProcessList (S (length (Cmds ls))) g ls;
  match r with
  | inl err => mret (Some err)
  | inr (_, _, listfun) => listfun OsStdin OsStdout OsStderr
  end.

(** The same, and then the goroutines the run has left in [WG]. *)
Definition run_list_and_wait `{Collaborators} (g : Goes) (ls : List) (w : World)
    : World :=
  world_of (WG_Wait (world_of (run_list g ls w))).

End Scenarios.

(** ** The child of a forked stage *)

(** The [envStr] of the fork path: the overlay as [NAME=VALUE] strings. *)
Definition envStr (envMap : gmap string string) : list string :=
  if negb (size envMap =? 0)
  then (λ '(k, v), k +:+ "=" +:+ v) <$> map_to_list envMap
  else [].

(** The [*exec.Cmd] that the fork path starts: what [g.Fork(args...)]
    returns, with [x.Env], [x.Stdin], [x.Stdout] and [x.Stderr] as the fork
    path sets them; [args] are the args that the binder left, [in_] and
    [out] the streams it bound. *)
Definition forked `{Collaborators} (envMap : gmap string string)
    (args : list string) (in_ out stderr : Stream) : ChildCmd :=
  {| x_Args := Fork_Args args;
     x_Env := if negb (length (envStr envMap) =? 0)
              then Some (os_Environ ++ envStr envMap) else None;
     x_Stdin := in_; x_Stdout := out; x_Stderr := stderr |}.

(** The files and the interactive source as they are when the fork path
    calls [x.Start()] in the state [w] that the binder left: the fork path
    has printed the command when [Verbosity] is [VerboseVerify] or more,
    and [Fork] has printed it when [Verbosity] is [VerboseDebug] or more. *)
Definition sys_at_Start (envMap : gmap string string) (args : list string)
    (w : World) : Sys :=
  let y :=
    if VerboseVerify <=? Verbosity w
    then sys_write OsStdout
           ("+ " +:+ Join (envStr envMap) " " +:+ " " +:+ Join args " " +:+ nl)
           (sys w)
    else sys w in
  if VerboseDebug <=? Verbosity w
  then sys_write OsStdout
         ("F*$=" +:+ fmt_error (Status w) +:+ " " +:+ fmt_strings args +:+ nl) y
  else y.

(** ** More of the package *)

(** [strings.Replace(s, "goes", name, -1)], with [skip] bytes of a match
    still to pass over: the occurrences of ["goes"] are taken from left to
    right and do not overlap. *)
Fixpoint Replace_from (skip : nat) (s name : string) : string :=
  match s with
  | EmptyString => EmptyString
  | String c s' =>
      match skip with
      | S k => Replace_from k s' name
      | 0 =>
          if HasPrefix s "goes" then name +:+ Replace_from 3 s' name
          else String c (Replace_from 0 s' name)
      end
  end.

(** [Replace(s, name)] *)
Definition Replace (s name : string) : string := Replace_from 0 s name.

(** [g.String()] *)
Definition Goes_String (g : Goes) : string :=
  if String.length (NAME g) =? 0 then "goes" else NAME g.

(** What is left of [s] after its first [n] bytes. *)
Fixpoint string_drop (n : nat) (s : string) : string :=
  match n, s with
  | S k, String _ s' => string_drop k s'
  | _, _ => s
  end.

(** The list callable as a chain reads: run the pipelines in order,
    record each error as the callable does, and stop after the first
    pipeline that leaves a [Status] for which [stop] holds. *)
Fixpoint run_until (stop : option error → bool) (pipeline : list piperun)
    (err : option error) (stdin stdout stderr : Stream) : M (option error) :=
  match pipeline with
  | [] => mret err
  | p :: rest => λ w,
      match pr_f p stdin stdout stderr w with
      | Done e w1 =>
          if stop (Status (recorded e w1)) then Done e (recorded e w1)
          else run_until stop rest e stdin stdout stderr (recorded e w1)
      | Panic msg w1 => Panic msg w1
      | OutOfFuel w1 => OutOfFuel w1
      end
  end.

(** The pipelines of a chain: every runner but the last is followed by the
    terminator [term]. *)
Definition chain (term : Word) (front : list Runfun) (final : piperun)
    : list piperun :=
  ((λ f, {| pr_f := f; pr_t := term |}) <$> front) ++ [final].


(** The command lines of the first pipeline of a list, up to and with the
    first whose terminator is not [|], and the command lines after it. *)
Fixpoint pipeline_span (cmds : list Cmdline) : list Cmdline * list Cmdline :=
  match cmds with
  | [] => ([], [])
  | cl :: rest =>
      if String.eqb (cl_Term cl) "|" then
        let '(stages, residual) := pipeline_span rest in (cl :: stages, residual)
      else ([cl], rest)
  end.

(** Whether a command line has a first word and that word is not the name
    of a [Blocker]. *)
Definition plain_stage (g : Goes) (cl : Cmdline) : bool :=
  match cl_Cmds cl with
  | [] => false
  | name :: _ =>
      match ByName g !! name ≫= cmd_Block with
      | Some _ => false
      | None => true
      end
  end.

(** The streams a goroutine closes when it ends. *)
Definition task_closes (t : Task) : list Stream :=
  match t with
  | HereDocWriter w _ _ _ => [w]
  | ChildWaiter x =>
      (if bool_decide (x_Stdout x ≠ OsStdout) && is_Closer (x_Stdout x)
       then [x_Stdout x] else [])
      ++ (if bool_decide (x_Stdin x ≠ OsStdin) && is_Closer (x_Stdin x)
          then [x_Stdin x] else [])
  end.

(** The continuation sentinels. *)
Definition sentinels : list string := [">>"; "||>>"; "&&>>"; "|>>"].

(** ** Package bootd: the names of the states *)

Module bootd.

Definition BootStateNotRegistered : Z := 0.
Definition BootStateRegistered : Z := 1.
Definition BootStateBooting : Z := 2.
Definition BootStateUp : Z := 3.
Definition BootStateInstalling : Z := 4.
Definition BootStateIntstallFailed : Z := 5.
Definition BootStateRebooting : Z := 6.

Definition InstallStateFactory : Z := 0.
Definition InstallStateInProgress : Z := 1.
Definition InstallStateInstalled : Z := 2.
Definition InstallStateInstallFail : Z := 3.
Definition InstallStateFactoryInProgress : Z := 4.
Definition InstallStateFactoryFailed : Z := 5.

Definition Debian : Z := 0.

Definition ScriptBootLatest : Z := 0.
Definition ScriptBootKnownGood : Z := 1.
Definition ScriptInstallDebian : Z := 2.

(** [table[i]] for a Go [int] index: [None] is the run-time panic for an
    index out of range. *)
Definition index (table : list string) (i : Z) : option string :=
  if (i <? 0)%Z then None else table !! Z.to_nat i.

Definition bootStates : list string :=
  ["Not-Registered"; "Registered"; "Booting"; "Up"; "Installing"; "Rebooting"].

Definition bootText (i : Z) : option string := index bootStates i.

Definition installStates : list string :=
  ["Factory"; "Install-in-progress"; "Installed"; "Install-failed";
   "Restore-in-progress"; "Restore-failed"].

Definition installText (i : Z) : option string := index installStates i.

Definition distroTypes : list string := ["Debian"].

Definition distroText (i : Z) : option string := index distroTypes i.

Definition scripts : list string :=
  ["Boot-latest"; "Boot-known-good"; "Debian-install"].

Definition scriptText (i : Z) : option string := index scripts i.

End bootd.

(** The same collaborators with another behaviour of [url.Open],
    [url.Create] and [url.Append]. *)
Definition with_url_err (H : Collaborators)
    (ue : UrlOp → string → option error) : Collaborators :=
  Build_Collaborators Slice parms_New flags_New Parse ue pipe_err
    Fork_Args child_Start child_Wait os_Getenv os_Environ os_Args0 ReadFile
    utf8_Valid Usage Apropos.

(** Every [url.Create] fails. *)
Definition read_only : Collaborators :=
  with_url_err Scenarios.collab
    (λ op _, match op with
             | UrlCreate => Some "read-only file system"
             | _ => None
             end).

(** A stream that [url.Open], [url.Create] or [url.Append] returned. *)
Definition is_url (s : Stream) : Prop :=
  match s with
  | UrlStream _ _ _ => True
  | _ => False
  end.

(** * Properties *)

Ltac unfold_M :=
  unfold mbind, M_bind, mret, M_ret, gets, modify, panic, assign_Status,
    write, Close, go in *.

(** ** The list composer *)

Section ListComposer.
Context `{Collaborators}.

(** Once [skipNext] is set nothing clears it: the assignment
    [skipNext = false] sits inside [if !skipNext], so no pipeline after the
    first skipped one runs and the state stays as it is. *)
Lemma listfun_loop_armed pipeline err stdin stdout stderr w :
  listfun_loop pipeline err true stdin stdout stderr w = Done err w.
Proof.
  revert err w.
  induction pipeline as [|p rest IH]; intros err w; simpl; [done|].
  unfold_M; simpl.
  destruct (bool_decide (Status w ≠ None)), (String.eqb (pr_t p) "&&"),
    (String.eqb (pr_t p) "||"); apply IH.
Qed.

(** One round of the loop with [skipNext] clear: the pipeline runs, its
    error, if any, is assigned to [Status], and [Status] and the terminator
    decide whether the rest is skipped. *)
Lemma listfun_loop_run p rest err stdin stdout stderr w :
  listfun_loop (p :: rest) err false stdin stdout stderr w =
  match pr_f p stdin stdout stderr w with
  | Done e w1 =>
      let w2 := if bool_decide (e ≠ None) then with_Status e w1 else w1 in
      let skipNext :=
        if bool_decide (Status w2 ≠ None)
        then String.eqb (pr_t p) "&&" else String.eqb (pr_t p) "||" in
      listfun_loop rest e skipNext stdin stdout stderr w2
  | Panic msg w1 => Panic msg w1
  | OutOfFuel w1 => OutOfFuel w1
  end.
Proof.
  simpl. unfold_M; simpl.
  destruct (pr_f p stdin stdout stderr w) as [e w1|msg w1|w1]; [|done..].
  destruct (bool_decide (e ≠ None)); simpl;
    repeat case_match; reflexivity.
Qed.

(** A first pipeline that ends in [&&] and leaves [Status] set is the only
    one that runs, whatever follows it. *)
Lemma listfun_first_failure_skips_rest p rest stdin stdout stderr w e w1 :
  pr_t p = "&&" →
  pr_f p stdin stdout stderr w = Done e w1 →
  Status (if bool_decide (e ≠ None) then with_Status e w1 else w1) ≠ None →
  MakeListFunc (p :: rest) stdin stdout stderr w
  = Done e (if bool_decide (e ≠ None) then with_Status e w1 else w1).
Proof.
  intros Ht Hp Hs. unfold MakeListFunc.
  rewrite listfun_loop_run, Hp. cbv zeta.
  rewrite (bool_decide_eq_true_2 _ Hs), Ht. simpl.
  apply listfun_loop_armed.
Qed.

Lemma scan_terms_spec cmds term :
  scan_terms term cmds =
  if existsb (λ cl, negb (is_continuation (cl_Term cl))) cmds then None
  else Some (default term (cl_Term <$> last cmds)).
Proof.
  revert term. induction cmds as [|cl rest IH]; intros term; simpl; [done|].
  destruct (is_continuation (cl_Term cl)); simpl; [|done].
  rewrite IH. destruct (existsb _ rest); [done|].
  rewrite last_cons. by destruct (last rest).
Qed.

Lemma call_Parse_log prompt w :
  ∃ r w', call_Parse prompt w = Done r w'
          ∧ trace w' = trace w ++ [EvParse prompt].
Proof.
  unfold call_Parse. destruct (Parse prompt (sys w)) as [r y]. by eexists _, _.
Qed.

(** The trace only grows while [ensureTerminated] runs. *)
Lemma ensureTerminated_log fuel g ls w :
  ∃ l, trace (world_of (ensureTerminated fuel g ls w)) = trace w ++ l.
Proof.
  revert ls w. induction fuel as [|fuel IH]; intros ls w; simpl.
  - destruct (scan_terms "" (Cmds ls)); exists []; by rewrite app_nil_r.
  - destruct (scan_terms "" (Cmds ls)) as [term|];
      [|exists []; by rewrite app_nil_r].
    unfold mbind, M_bind.
    destruct (call_Parse_log (term +:+ ">>") w) as (r & w' & -> & Hlog).
    destruct r as [err|newls]; simpl.
    + rewrite Hlog. by eexists.
    + destruct (IH {| Cmds := Cmds ls ++ Cmds newls |} w') as [l ->].
      rewrite Hlog, <-app_assoc. by eexists.
Qed.

End ListComposer.

(** C1 (the code as it is, where the specification expects otherwise): the
    callable composed for [P1 && P2 || P3] runs [P1]; when [Status] is nil
    after it, [P2] runs, and [P3] runs when [Status] is set after [P2]; the
    callable returns the error of the last pipeline it ran.  When [Status]
    is set after [P1], [P2] is skipped and so is [P3], because nothing
    clears [skipNext] once it is set.  So [false && echo yes || echo no]
    runs [false] and nothing else: nothing is written to stdout, where the
    specification expects the line [no]. *)
Theorem C1_and_or_list_skips_everything_after_a_skip
    (P1 P2 P3 : Runfun) (t3 : Word) (stdin stdout stderr : Stream) (w : World) :
  MakeListFunc [{| pr_f := P1; pr_t := "&&" |}; {| pr_f := P2; pr_t := "||" |};
                {| pr_f := P3; pr_t := t3 |}] stdin stdout stderr w =
    match P1 stdin stdout stderr w with
    | Done e1 w1 =>
        if bool_decide (Status (recorded e1 w1) ≠ None)
        then Done e1 (recorded e1 w1)
        else
          match P2 stdin stdout stderr (recorded e1 w1) with
          | Done e2 w2 =>
              if bool_decide (Status (recorded e2 w2) ≠ None) then
                match P3 stdin stdout stderr (recorded e2 w2) with
                | Done e3 w3 => Done e3 (recorded e3 w3)
                | Panic msg w3 => Panic msg w3
                | OutOfFuel w3 => OutOfFuel w3
                end
              else Done e2 (recorded e2 w2)
          | Panic msg w2 => Panic msg w2
          | OutOfFuel w2 => OutOfFuel w2
          end
    | Panic msg w1 => Panic msg w1
    | OutOfFuel w1 => OutOfFuel w1
    end
  ∧ ∃ w',
      @Scenarios.run_list Scenarios.collab Scenarios.g Scenarios.false_yes_no
        (Scenarios.start []) = Done None w'
      ∧ content OsStdout (sys w') = ""
      ∧ written (sys w') = []
      ∧ Status w' = Some "exit status 1"
      ∧ trace w' = [EvStatus (Some "exit status 1")].
Proof.
  split; [|eexists; vm_compute; by repeat split].
  unfold MakeListFunc. rewrite listfun_loop_run. cbn [pr_f pr_t].
  destruct (P1 stdin stdout stderr w) as [e1 w1|msg w1|w1]; [|done..].
  cbv zeta. fold (recorded e1 w1).
  destruct (bool_decide (Status (recorded e1 w1) ≠ None)) eqn:Hs1.
  { apply listfun_loop_armed. }
  change (String.eqb "&&" "||") with false.
  rewrite listfun_loop_run. cbn [pr_f pr_t].
  destruct (P2 stdin stdout stderr (recorded e1 w1)) as [e2 w2|msg w2|w2];
    [|done..].
  cbv zeta. fold (recorded e2 w2).
  destruct (bool_decide (Status (recorded e2 w2) ≠ None)) eqn:Hs2.
  - change (String.eqb "||" "&&") with false.
    rewrite listfun_loop_run. cbn [pr_f].
    destruct (P3 stdin stdout stderr (recorded e2 w2)) as [e3 w3|msg w3|w3];
      done.
  - apply listfun_loop_armed.
Qed.

(** C6 (as amended): [ensureTerminated] returns the list unchanged, without
    a call of the parser, if and only if some command line of the list, not
    necessarily the last, ends in a terminator other than [&&], [||], [|];
    otherwise (every terminator is a continuation, or the list is empty) it
    calls the parser with the last terminator followed by [>>] and goes on
    with the command lines it delivers appended. *)
Theorem C6_ensureTerminated_asks_unless_some_cmdline_is_terminated
    `{Collaborators} (fuel : nat) (g : Goes) (ls : List) (w : World) :
  ensureTerminated (S fuel) g ls w =
    (if terminated ls then Done (inr ls) w
     else
       (r ← call_Parse (last_term ls +:+ ">>");
        match r with
        | inl err => mret (inl err)
        | inr newls =>
            ensureTerminated fuel g {| Cmds := Cmds ls ++ Cmds newls |}
        end) w)
  ∧ (trace (world_of (ensureTerminated (S fuel) g ls w)) ≠ trace w
     ↔ terminated ls = false).
Proof.
  assert (Heq : ensureTerminated (S fuel) g ls w =
    (if terminated ls then Done (inr ls) w
     else
       (r ← call_Parse (last_term ls +:+ ">>");
        match r with
        | inl err => mret (inl err)
        | inr newls =>
            ensureTerminated fuel g {| Cmds := Cmds ls ++ Cmds newls |}
        end) w)).
  { simpl. rewrite scan_terms_spec. unfold terminated, last_term.
    by destruct (existsb _ (Cmds ls)). }
  split; [exact Heq|].
  rewrite Heq. destruct (terminated ls); simpl.
  - split; [intros Hne; by destruct Hne | discriminate].
  - split; [done|intros _].
    unfold mbind, M_bind.
    destruct (call_Parse_log (last_term ls +:+ ">>") w) as (r & w' & -> & Hlog).
    assert (Hlen : ∀ l, trace w ++ [EvParse (last_term ls +:+ ">>")] ++ l ≠ trace w).
    { intros l Hl. apply (f_equal length) in Hl.
      rewrite !length_app in Hl. simpl in Hl. lia. }
    destruct r as [err|newls]; simpl.
    + rewrite Hlog. apply (Hlen []).
    + destruct (ensureTerminated_log fuel g {| Cmds := Cmds ls ++ Cmds newls |} w')
        as [l ->].
      rewrite Hlog, <-app_assoc. apply Hlen.
Qed.

(** C6, as the specification states it, fails: in the list [a ; b &&] the last
    terminator is [&&], and the parser is not called, because the scan stops
    at the [;] of the first command line. *)
Lemma C6_last_terminator_does_not_decide :
  let ls := {| Cmds := [Scenarios.cmdline ["a"] ";"; Scenarios.cmdline ["b"] "&&"] |} in
  let w := Scenarios.start [] in
  ¬ (trace (world_of (@ensureTerminated Scenarios.collab 3 Scenarios.g ls w))
       ≠ trace w
     ↔ is_continuation (last_term ls) = true).
Proof. intros ls w [_ Hc]. by apply Hc. Qed.

(** ** Argv normalization *)

Lemma prefix_matches_filter names a :
  prefix_matches names a =
  (length (filter (λ name, HasPrefix name a = true) names),
   default "" (last (filter (λ name, HasPrefix name a = true) names))).
Proof.
  unfold prefix_matches.
  enough (Hgen : ∀ m l,
    foldl (λ '(matches, last) name,
             if HasPrefix name a then (S matches, name) else (matches, last))
          (m, l) names
    = (m + length (filter (λ name, HasPrefix name a = true) names),
       default l (last (filter (λ name, HasPrefix name a = true) names))))
    by apply (Hgen 0 "").
  induction names as [|name names IH]; intros m l; simpl.
  - by rewrite Nat.add_0_r.
  - rewrite filter_cons. destruct (HasPrefix name a) eqn:Hp.
    + rewrite decide_True by done. rewrite IH, last_cons. simpl.
      f_equal; [lia|]. by destruct (last _).
    + rewrite decide_False by done. apply IH.
Qed.

(** What the body of the loop of [shift] decides at one token. *)
Lemma shift_step_resolve g a :
  resolve g a =
  match ByName g !! a with
  | Some _ => Some a
  | None =>
      let '(matches, last) := prefix_matches (Names g) a in
      if matches =? 1 then Some last else None
  end.
Proof.
  unfold resolve. destruct (ByName g !! a); [done|].
  rewrite prefix_matches_filter.
  destruct (filter _ (Names g)) as [|n1 [|n2 l]]; done.
Qed.

Lemma rotated args i a name :
  args !! i = Some a →
  <[0:=name]> (if 0 <? i then copy_up args i else args)
  = name :: take i args ++ drop (S i) args.
Proof.
  intros Hi. destruct args as [|x args]; [done|].
  destruct i as [|i]; simpl; [by rewrite drop_0|done].
Qed.

Lemma shift_from_spec g args n i :
  n = length (drop i args) →
  shift_from g args i n =
  match first_resolved g i (drop i args) with
  | Some (j, name) => (true, name :: take j args ++ drop (S j) args)
  | None => (false, args)
  end.
Proof.
  revert i. induction n as [|n IH]; intros i Hn; simpl.
  - symmetry in Hn. apply length_zero_iff_nil in Hn. by rewrite Hn.
  - destruct (args !! i) as [a|] eqn:Hi.
    2:{ apply lookup_ge_None_1 in Hi. rewrite length_drop in Hn. lia. }
    rewrite (drop_S _ _ _ Hi). simpl.
    rewrite shift_step_resolve.
    destruct (ByName g !! a).
    + f_equal. destruct i as [|i]; simpl.
      * destruct args; simplify_eq/=. by rewrite drop_0.
      * rewrite <-(rotated args (S i) a a Hi). done.
    + destruct (prefix_matches (Names g) a) as [matches last].
      destruct (matches =? 1).
      * f_equal. by apply (rotated args i a).
      * apply IH. rewrite (drop_S _ _ _ Hi) in Hn. simpl in Hn. lia.
Qed.

(** C8 (as amended): [shift] settles on the first token that is the name of
    a registry entry or else a prefix of exactly one registry name (the
    exact entry is tried first), puts the name it resolved to in front and
    moves the tokens before it behind it; when no token resolves it changes
    nothing and reports so.  With the registry [ip], [link] the argv
    [-s li] becomes [link -s].  With the registry [ip], [link], [list] the
    token [li] is a prefix of two names: [-s li] is left as it is, and in
    [ip -s li] the token [ip] is found at position 0, so the argv stays
    [ip -s li] and [Main] calls [ip] with [-s li]. *)
Theorem C8_shift_moves_first_resolved_token_to_front
    (g : Goes) (args : list string) :
  shift g args =
    match first_resolved g 0 args with
    | Some (i, name) => (true, name :: take i args ++ drop (S i) args)
    | None => (false, args)
    end
  ∧ shift Scenarios.ip_link ["-s"; "li"] = (true, ["link"; "-s"])
  ∧ shift Scenarios.ip_link_list ["-s"; "li"] = (false, ["-s"; "li"])
  ∧ shift Scenarios.ip_link_list ["ip"; "-s"; "li"] = (true, ["ip"; "-s"; "li"])
  ∧ written (sys (world_of
       (@Main Scenarios.collab Scenarios.ip_link_list ["ip"; "-s"; "li"]
          (Scenarios.start []))))
    = [(OsStdout, "ip [-s li]" +:+ nl)].
Proof.
  split; [|by vm_compute].
  unfold shift. by rewrite (shift_from_spec g args (length args) 0).
Qed.

(** C8, as the specification states it, fails: with the registry [ip], [link], [list]
    neither [ip -s li] nor [-s li] is normalized to [link -s]. *)
Lemma C8_li_is_a_prefix_of_link_and_list :
  ¬ (snd (shift Scenarios.ip_link_list ["ip"; "-s"; "li"]) = ["ip"; "link"; "-s"]
     ∨ snd (shift Scenarios.ip_link_list ["-s"; "li"]) = ["link"; "-s"]).
Proof. vm_compute. intros [Hc|Hc]; discriminate Hc. Qed.

(** ** Here-documents *)






(** ** The stdout binder *)

(** The fourth branch of the stdout binder tests [">>"] a second time, so
    it is never taken: when none of [>], [>>], [>>>] is given, nothing is
    opened, whatever [>>>>] names. *)
Lemma bind_stdout_never_appends_and_tees `{Collaborators} closers args w :
  let '(oparm, args') := parms_New args [">"; ">>"; ">>>"; ">>>>"] in
  oparm ">" = "" → oparm ">>" = "" → oparm ">>>" = "" →
  bind_stdout closers OsStdout args w = Done (inr (OsStdout, args')) w.
Proof.
  destruct (parms_New args [">"; ">>"; ">>>"; ">>>>"]) as [oparm args'] eqn:Hp.
  intros H1 H2 H3. unfold bind_stdout. simpl. rewrite Hp, H1, H2, H3. done.
Qed.

(** [>] comes first: in [somecmd > /tmp/x >>> /tmp/y] the file [/tmp/x] is
    created, nothing else is opened, and the closer list has one entry. *)
Example create_wins_over_tee :
  ∃ w,
    @Scenarios.run_list Scenarios.collab Scenarios.g Scenarios.create_and_tee
      (Scenarios.start []) = Done None w
    ∧ url_calls (trace w) = [(UrlCreate, "/tmp/x")]
    ∧ cells w = [[UrlStream UrlCreate "/tmp/x" 0]].
Proof. eexists. by vm_compute. Qed.

(** C5 (the code as it is, where the specification expects otherwise): for
    [somecmd >>>> FILE] the binder takes [>>>>] and [FILE] out of the argv
    and then opens nothing: stdout stays the inherited one, no [url] call is
    made and the closer list stays empty, where the specification expects
    [FILE] opened for append and the output teed. *)
Theorem C5_append_and_tee_token_opens_nothing :
  let w := with_cells [[]] (Scenarios.start []) in
  @bind_stdout Scenarios.collab 0 OsStdout ["somecmd"; ">>>>"; "FILE"] w
    = Done (inr (OsStdout, ["somecmd"])) w
  ∧ ∃ w',
      @Scenarios.run_list Scenarios.collab Scenarios.g Scenarios.append_tee
        (Scenarios.start []) = Done None w'
      ∧ url_calls (trace w') = []
      ∧ opened (trace w') = []
      ∧ cells w' = [[]].
Proof. split; [by vm_compute|]. eexists. by vm_compute. Qed.

(** ** The command executor *)

(** C7 (as amended): a stage whose name is not a function and is a registry
    command classified [IsCantPipe], called with any of its streams
    redirected, fails with [<name>: can't pipe], unless the command is also
    classified [IsDaemon], which is tested first and fails with the daemon
    hint.  In both cases the stage returns before the redirection binder:
    the state is as it was, so no [url] call was made and no closer
    appended. *)
Theorem C7_cant_pipe_fails_before_the_binder `{Collaborators}
    (g : Goes) (cl : Cmdline) (closers : nat) (stdin stdout stderr : Stream)
    (w : World) (envMap : gmap string string) (name : string)
    (rest : list string) (v : Cmd) :
  Slice cl (λ k, match EnvMap w !! k with
                 | Some x => x
                 | None => os_Getenv k
                 end) = (envMap, name :: rest) →
  FunctionMap g !! name = None →
  ByName g !! name = Some v →
  IsCantPipe (cmd_Kind v) = true →
  isRedirected stdin stdout stderr = true →
  ProcessCommand g cl closers stdin stdout stderr w =
    Done (Some (if IsDaemon (cmd_Kind v)
                then "use `goes-daemons start " +:+ name +:+ "`"
                else name +:+ ": can't pipe")) w.
Proof.
  intros Hs Hf Hv Hk Hr. unfold ProcessCommand. unfold_M.
  rewrite Hs, Hf, Hv, Hk, Hr. simpl. by destruct (IsDaemon (cmd_Kind v)).
Qed.

Lemma C7_cant_pipe_fails_before_the_binder_witness :
  @ProcessCommand Scenarios.collab Scenarios.kinds
    (Scenarios.cmdline ["vi"; ">"; "/tmp/x"] "|") 0
    OsStdin (PipeWrite 0) OsStderr (with_cells [[]] (Scenarios.start []))
  = Done (Some "vi: can't pipe") (with_cells [[]] (Scenarios.start [])).
Proof.
  apply (@C7_cant_pipe_fails_before_the_binder Scenarios.collab
           Scenarios.kinds (Scenarios.cmdline ["vi"; ">"; "/tmp/x"] "|") 0
           OsStdin (PipeWrite 0) OsStderr (with_cells [[]] (Scenarios.start []))
           ∅ "vi" [">"; "/tmp/x"]
           (Scenarios.of_kind "vi" {| IsDontFork := false; IsDaemon := false;
                                      IsCantPipe := true |}));
    reflexivity.
Defined.

(** C7, as the specification states it, fails for a command that is classified both
    [IsCantPipe] and [IsDaemon]: its stage fails with the daemon hint. *)
Lemma C7_daemon_hint_comes_first :
  ¬ (∃ w',
       @ProcessCommand Scenarios.collab Scenarios.kinds
         (Scenarios.cmdline ["sshd"] "|") 0
         OsStdin (PipeWrite 0) OsStderr (with_cells [[]] (Scenarios.start []))
       = Done (Some "sshd: can't pipe") w').
Proof. vm_compute. intros [w' Hw]. discriminate Hw. Qed.

(** ** The pipeline composer *)



(** ** The redirection binder and the fork path *)

Section Binder.
Context `{Collaborators}.

Lemma quiet_refl closers w : quiet closers w w.
Proof.
  split_and!; [done..| |].
  - exists []. split_and!; [by rewrite app_nil_r|done..|].
    intros _. by rewrite app_nil_r.
  - exists []. split; [by rewrite app_nil_r|constructor].
Qed.

Lemma quiet_trans closers w1 w2 w3 :
  quiet closers w1 w2 → quiet closers w2 w3 → quiet closers w1 w3.
Proof.
  intros (Hs1 & Hl1 & (e1 & Ht1 & Hw1 & Hc1 & Ho1) & (t1 & Hg1 & Hf1))
         (Hs2 & Hl2 & (e2 & Ht2 & Hw2 & Hc2 & Ho2) & (t2 & Hg2 & Hf2)).
  split_and!; [congruence..| |].
  - exists (e1 ++ e2). unfold status_writes, closes, opened in *.
    rewrite !omap_app, Hw1, Hw2, Hc1, Hc2, Ht2, Ht1, <-app_assoc.
    split_and!; [done..|]. intros Hlt.
    rewrite Ho2, Ho1, <-app_assoc by lia. done.
  - exists (t1 ++ t2). rewrite Hg2, Hg1, <-app_assoc.
    split; [done|by apply Forall_app].
Qed.

(** A change of [sys] alone is quiet. *)
Lemma quiet_with_sys closers y w : quiet closers w (with_sys y w).
Proof.
  split_and!; [done..| |].
  - exists []. split_and!; [by simpl; rewrite app_nil_r|done..|].
    intros _. by rewrite app_nil_r.
  - exists []. split; [by simpl; rewrite app_nil_r|constructor].
Qed.

Lemma read_closers_alter closers c w w0 :
  closers < length (cells w) →
  read_closers closers
    (with_cells (alter (λ l, l ++ [c]) closers (cells w)) w0)
  = read_closers closers w ++ [c].
Proof.
  intros Hlt. unfold read_closers. simpl. rewrite list_lookup_alter.
  rewrite decide_True by done.
  destruct (lookup_lt_is_Some_2 _ _ Hlt) as [l ->]. done.
Qed.

(** The five places where the binder opens a [url] and appends the stream
    to the closers. *)
Lemma url_open_quiet {A} closers op fn (k : Stream → A) w :
  ∃ r w',
    (r ← url_call op fn;
     match r with
     | inl err => mret (inl err)
     | inr rc => append_closer closers rc;; mret (inr (k rc))
     end) w = Done r w'
    ∧ quiet closers w w'.
Proof.
  unfold url_call, append_closer. unfold_M.
  destruct (url_err op fn) as [err|]; simpl; eexists _, _; (split; [done|]).
  - split_and!; [done..| |].
    + eexists. split_and!; [done..|]. intros _. by rewrite app_nil_r.
    + exists []. split; [by rewrite app_nil_r|constructor].
  - split_and!; [done|by simpl; rewrite length_alter| |].
    + eexists. split_and!; [done..|]. intros Hlt.
      by rewrite (read_closers_alter closers _ w).
    + exists []. split; [by rewrite app_nil_r|constructor].
Qed.

Lemma bind_stdin_quiet closers stdin args w :
  ∃ r w', bind_stdin closers stdin args w = Done r w' ∧ quiet closers w w'.
Proof.
  unfold bind_stdin.
  destruct (negb (isStdinRedirected stdin));
    [|eexists _, _; split; [done|apply quiet_refl]].
  destruct (parms_New args ["<"; "<<"; "<<-"]) as [iparm args'].
  destruct (0 <? String.length (iparm "<")).
  { apply (url_open_quiet closers UrlOpen (iparm "<") (λ rc, (rc, args'))). }
  destruct ((0 <? String.length (iparm "<<")) || (0 <? String.length (iparm "<<-")));
    [|eexists _, _; split; [done|apply quiet_refl]].
  destruct (if String.length (iparm "<<") =? 0
            then (iparm "<<-", true) else (iparm "<<", false)) as [lbl trim].
  unfold os_Pipe, append_closer, go. unfold_M.
  destruct (pipe_err (npipes w)) as [err|]; simpl;
    eexists _, _; (split; [done|]); [apply quiet_refl|].
  split_and!; [done|by simpl; rewrite length_alter| |].
  - eexists. split_and!; [done..|]. intros Hlt.
    unfold read_closers. simpl. rewrite list_lookup_alter, decide_True by done.
    by destruct (lookup_lt_is_Some_2 _ _ Hlt) as [l ->].
  - eexists. split; [done|]. by repeat constructor.
Qed.

Lemma bind_stdout_quiet closers stdout args w :
  ∃ r w', bind_stdout closers stdout args w = Done r w' ∧ quiet closers w w'.
Proof.
  unfold bind_stdout.
  destruct (negb (isStdoutRedirected stdout));
    [|eexists _, _; split; [done|apply quiet_refl]].
  destruct (parms_New args [">"; ">>"; ">>>"; ">>>>"]) as [oparm args'].
  destruct (0 <? String.length (oparm ">")).
  { apply (url_open_quiet closers UrlCreate _ (λ wc, (wc, args'))). }
  destruct (0 <? String.length (oparm ">>")).
  { apply (url_open_quiet closers UrlAppend _ (λ wc, (wc, args'))). }
  destruct (0 <? String.length (oparm ">>>")).
  { apply (url_open_quiet closers UrlCreate _
             (λ wc, (MultiWriter OsStdout wc, args'))). }
  eexists _, _; split; [done|apply quiet_refl].
Qed.

(** When stdout is redirected the stdout binder is skipped. *)
Lemma bind_stdout_redirected closers stdout args w :
  isStdoutRedirected stdout = true →
  bind_stdout closers stdout args w = Done (inr (stdout, args)) w.
Proof. intros Hr. unfold bind_stdout. by rewrite Hr. Qed.

Lemma Fork_quiet g args w :
  ∃ y, Fork g args w =
       Done {| x_Args := Fork_Args args; x_Env := None; x_Stdin := NilFile;
               x_Stdout := NilFile; x_Stderr := NilFile |} (with_sys y w).
Proof.
  unfold Fork. unfold_M.
  destruct (VerboseDebug <=? Verbosity w); simpl; [by eexists|].
  exists (sys w). by destruct w.
Qed.

Lemma verify_print_sys (b : bool) (text : string) w :
  ∃ y, (if b then write OsStdout text else mret ()) w = Done () (with_sys y w).
Proof.
  destruct b; unfold_M; [by eexists|]. exists (sys w). by destruct w.
Qed.

(** The fork path as a whole: the binder, then either an error (from the
    binder or from [Start]), or a child awaited in the foreground whose
    [Wait] result is assigned to [Status], or a child left to a waiter. *)
Lemma fork_path_effect g closers envMap args stdin stdout stderr w :
  ∃ e w' wq,
    fork_path g closers envMap args stdin stdout stderr w = Done e w'
    ∧ quiet closers w wq
    ∧ ((e ≠ None ∧ w' = wq)
       ∨ (e = None ∧ isStdoutRedirected stdout = false
          ∧ ∃ err, Status w' = err ∧ trace w' = trace wq ++ [EvStatus err]
                   ∧ cells w' = cells wq ∧ WG w' = WG wq)
       ∨ (e = None ∧ isStdoutRedirected stdout = true
          ∧ ∃ x, child_Start x = None ∧ x_Stdout x = stdout
                 ∧ w' = with_WG (WG wq ++ [ChildWaiter x]) wq)).
Proof.
  unfold fork_path. unfold mbind at 1, M_bind at 1.
  destruct (bind_stdin_quiet closers stdin args w) as (ri & w1 & -> & Hq1).
  destruct ri as [err|[in_ args1]].
  { eexists _, _, _. split; [done|]. split; [done|]. by left. }
  unfold mbind at 1, M_bind at 1.
  destruct (bind_stdout_quiet closers stdout args1 w1) as (ro & w2 & Hro & Hq2).
  rewrite Hro.
  destruct ro as [err|[out args2]].
  { eexists _, _, _. split; [done|]. split; [by eapply quiet_trans|]. by left. }
  set (envStr := if negb (size envMap =? 0)
                 then (λ '(k, v), k +:+ "=" +:+ v) <$> map_to_list envMap
                 else []).
  unfold mbind at 1, M_bind at 1, gets.
  unfold mbind at 1, M_bind at 1.
  destruct (verify_print_sys (VerboseVerify <=? Verbosity w2)
              ("+ " +:+ Join envStr " " +:+ " " +:+ Join args2 " " +:+ nl) w2)
    as [y1 ->].
  unfold mbind at 1, M_bind at 1.
  destruct (Fork_quiet g args2 (with_sys y1 w2)) as [y2 ->].
  set (wq := with_sys y2 (with_sys y1 w2)).
  assert (Hq : quiet closers w wq).
  { eapply quiet_trans; [exact Hq1|]. eapply quiet_trans; [exact Hq2|].
    eapply quiet_trans; apply quiet_with_sys. }
  cbn [x_Args x_Env].
  set (x := {| x_Args := Fork_Args args2;
               x_Env := if negb (length envStr =? 0)
                        then Some (os_Environ ++ envStr) else None;
               x_Stdin := in_; x_Stdout := out; x_Stderr := stderr |}).
  destruct (child_Start x) as [err|] eqn:Hstart.
  { eexists _, _, _. split; [done|]. split; [exact Hq|]. by left. }
  destruct (isStdoutRedirected stdout) eqn:Hred; cbn [negb].
  - rewrite (bind_stdout_redirected _ _ _ _ Hred) in Hro.
    injection Hro as <- <- <-.
    eexists _, _, wq. split; [by unfold_M|]. split; [exact Hq|].
    right. right. split_and!; [done..|]. by exists x.
  - unfold Wait. unfold_M.
    destruct (child_Wait x (sys wq)) as [err y3].
    destruct (loud err); eexists _, _, wq; (split; [done|]);
      (split; [exact Hq|]); right; left; (split_and!; [done..|]);
      by exists err.
Qed.

Lemma new_events_app w w' evs :
  trace w' = trace w ++ evs → new_events w w' = evs.
Proof. intros Ht. unfold new_events. by rewrite Ht, drop_app_length. Qed.

(** What the fork path does to [Status]: one assignment, of the result of
    [Wait], when the child started and stdout is not redirected; none in
    every other case. *)
Lemma fork_path_status g closers envMap args stdin stdout stderr w :
  ∃ e w',
    fork_path g closers envMap args stdin stdout stderr w = Done e w'
    ∧ status_writes (new_events w w') =
        (if bool_decide (e = None) && negb (isStdoutRedirected stdout)
         then [Status w'] else [])
    ∧ (bool_decide (e = None) && negb (isStdoutRedirected stdout) = false →
       Status w' = Status w).
Proof.
  destruct (fork_path_effect g closers envMap args stdin stdout stderr w)
    as (e & w' & wq & Hrun & Hq & Hcases).
  destruct Hq as (Hs & _ & (evs & Ht & Hw & _ & _) & _).
  exists e, w'. split; [done|].
  destruct Hcases as [[He ->]|[(-> & Hred & err & Hst & Htr & _)
                               |(-> & Hred & x & _ & _ & ->)]].
  - rewrite (new_events_app _ _ _ Ht), Hw.
    rewrite (bool_decide_eq_false_2 _ He). done.
  - rewrite Hred. simpl. rewrite Ht, <-app_assoc in Htr.
    rewrite (new_events_app _ _ _ Htr). unfold status_writes in *.
    rewrite omap_app, Hw. simpl. rewrite Hst. split; [done|discriminate].
  - rewrite Hred. simpl. rewrite (new_events_app w _ evs) by done.
    rewrite Hw. done.
Qed.

(** What the fork path does to the closer list: it grows by the sources and
    sinks the stage opened, in the order they were opened, and the stage
    itself closes nothing. *)
Lemma fork_path_closers g closers envMap args stdin stdout stderr w :
  closers < length (cells w) →
  ∃ e w',
    fork_path g closers envMap args stdin stdout stderr w = Done e w'
    ∧ read_closers closers w' = read_closers closers w ++ opened (new_events w w')
    ∧ closes (new_events w w') = [].
Proof.
  intros Hlt.
  destruct (fork_path_effect g closers envMap args stdin stdout stderr w)
    as (e & w' & wq & Hrun & Hq & Hcases).
  destruct Hq as (_ & _ & (evs & Ht & _ & Hc & Ho) & _).
  exists e, w'. split; [done|].
  destruct Hcases as [[He ->]|[(-> & Hred & err & Hst & Htr & Hce & _)
                               |(-> & Hred & x & _ & _ & ->)]].
  - rewrite (new_events_app _ _ _ Ht). auto.
  - rewrite Ht, <-app_assoc in Htr. rewrite (new_events_app _ _ _ Htr).
    unfold opened, closes, read_closers in *. rewrite !omap_app, Hce, Hc.
    simpl. rewrite app_nil_r. auto.
  - rewrite (new_events_app w _ evs) by done. auto.
Qed.

End Binder.

(** ** The fork path once the binder has returned *)

Lemma print_if_exact (b : bool) (text : string) w :
  (if b then write OsStdout text else mret ()) w
  = Done () (with_sys (if b then sys_write OsStdout text (sys w) else sys w) w).
Proof. destruct b; unfold_M; [done|]. by destruct w. Qed.

(** What the fork path does after the binder: it starts the child
    [forked envMap args2 in_ out stderr]; when [Start] fails it returns
    that error, when stdout is redirected it leaves the child to a waiter,
    and otherwise it waits and assigns what [Wait] returns to [Status]. *)
Lemma fork_path_started `{Collaborators} g closers envMap args stdin stdout
    stderr w in_ args1 w1 out args2 w2 :
  bind_stdin closers stdin args w = Done (inr (in_, args1)) w1 →
  bind_stdout closers stdout args1 w1 = Done (inr (out, args2)) w2 →
  ∃ w',
    fork_path g closers envMap args stdin stdout stderr w
    = Done match child_Start (forked envMap args2 in_ out stderr) with
           | Some err =>
               Some ("child: "
                     +:+ fmt_strings (x_Args (forked envMap args2 in_ out stderr))
                     +:+ ": " +:+ err)
           | None => None
           end w'
    ∧ cells w' = cells w2
    ∧ if bool_decide (child_Start (forked envMap args2 in_ out stderr) = None)
      then
        if isStdoutRedirected stdout
        then Status w' = Status w2 ∧ trace w' = trace w2
             ∧ WG w' = WG w2 ++ [ChildWaiter (forked envMap args2 in_ out stderr)]
        else
          Status w'
          = (child_Wait (forked envMap args2 in_ out stderr)
               (sys_at_Start envMap args2 w2)).1
          ∧ trace w' = trace w2 ++ [EvStatus (Status w')]
          ∧ WG w' = WG w2
      else Status w' = Status w2 ∧ trace w' = trace w2 ∧ WG w' = WG w2.
Proof.
  intros Hbi Hbo. unfold fork_path. unfold mbind at 1, M_bind at 1.
  rewrite Hbi. unfold mbind at 1, M_bind at 1. rewrite Hbo.
  fold (envStr envMap).
  unfold mbind at 1, M_bind at 1, gets.
  unfold mbind at 1, M_bind at 1.
  rewrite print_if_exact.
  unfold mbind at 1, M_bind at 1.
  unfold Fork. unfold mbind at 1, M_bind at 1, gets.
  unfold mbind at 1, M_bind at 1, gets.
  unfold mbind at 1, M_bind at 1.
  rewrite print_if_exact. unfold mret at 1, M_ret at 1.
  cbn [x_Args x_Env Verbosity Status with_sys sys].
  fold (forked envMap args2 in_ out stderr).
  set (x := forked envMap args2 in_ out stderr).
  set (y := if VerboseDebug <=? Verbosity w2 then _ else _).
  assert (Hy : y = sys_at_Start envMap args2 w2) by done.
  destruct (child_Start x) as [err|] eqn:Hstart.
  { rewrite bool_decide_eq_false_2 by done.
    unfold_M. eexists. split; [done|]. done. }
  rewrite bool_decide_eq_true_2 by done.
  destruct (isStdoutRedirected stdout); cbn [negb].
  { unfold_M. eexists. split; [done|]. done. }
  unfold Wait. unfold_M. cbn [sys with_sys].
  rewrite <-Hy. destruct (child_Wait x y) as [err y'].
  destruct (loud err); eexists; (split; [done|]); done.
Qed.

Lemma closes_app t1 t2 : closes (t1 ++ t2) = closes t1 ++ closes t2.
Proof. apply omap_app. Qed.

Lemma opened_app t1 t2 : opened (t1 ++ t2) = opened t1 ++ opened t2.
Proof. apply omap_app. Qed.

Lemma closes_EvClose l : closes (EvClose <$> l) = l.
Proof. induction l as [|c l IH]; [done|]. simpl. f_equal. exact IH. Qed.

Lemma opened_EvClose l : opened (EvClose <$> l) = [].
Proof. induction l as [|c l IH]; [done|]. exact IH. Qed.

Lemma child_waiter_status `{Collaborators} x w :
  Status (run_task (ChildWaiter x) w) = Status w
  ∧ status_writes (new_events w (run_task (ChildWaiter x) w)) = [].
Proof.
  simpl. unfold child_waiter.
  destruct (child_Wait x (sys w)) as [err y].
  split; [done|].
  unfold new_events. simpl. rewrite drop_app_length.
  by repeat case_match.
Qed.

Lemma fork_path_ignores_Wait `{H : Collaborators} cw g closers envMap args
    stdin stdout stderr w :
  isStdoutRedirected stdout = true →
  @fork_path (with_child_Wait H cw) g closers envMap args stdin stdout stderr w
  = fork_path g closers envMap args stdin stdout stderr w.
Proof. intros Hred. destruct stdout; first [discriminate Hred|reflexivity]. Qed.

(** C9: a stage on the fork path whose stdout is redirected returns nil as
    soon as the child has started, and leaves the child to a waiter
    registered with [WG]; what the child's [Wait] returns plays no part in
    the result or in the state the stage leaves.  Neither the stage nor the
    waiter, when it runs, assigns [Status]: a failure of a child in the
    middle of a pipeline cannot arm [&&] or [||].  The result of the stage
    is decided by the binder and by [Start] alone: the error of the stdin
    binder when it fails, the error of [Start] when the child does not
    start, and nil, with the child handed to the waiter, whenever [Start]
    succeeds. *)
Theorem C9_redirected_fork_stage_never_sees_child_exit `{H : Collaborators}
    (g : Goes) (closers : nat) (envMap : gmap string string)
    (args : list string) (stdin stdout stderr : Stream) (w : World) :
  isStdoutRedirected stdout = true →
  ∃ e w' tasks,
    fork_path g closers envMap args stdin stdout stderr w = Done e w'
    ∧ (∀ cw, @fork_path (with_child_Wait H cw) g closers envMap args
               stdin stdout stderr w = Done e w')
    ∧ Status w' = Status w
    ∧ status_writes (new_events w w') = []
    ∧ Forall is_writer tasks
    ∧ match e with
      | None =>
          ∃ x, child_Start x = None ∧ x_Stdout x = stdout
               ∧ WG w' = WG w ++ tasks ++ [ChildWaiter x]
      | Some _ => WG w' = WG w ++ tasks
      end
    ∧ (∀ x w0,
         Status (run_task (ChildWaiter x) w0) = Status w0
         ∧ status_writes (new_events w0 (run_task (ChildWaiter x) w0)) = [])
    ∧ (∃ ri w1,
         bind_stdin closers stdin args w = Done ri w1
         ∧ match ri with
           | inl err => e = Some err
           | inr (in_, args1) =>
               let x := forked envMap args1 in_ stdout stderr in
               match child_Start x with
               | Some err =>
                   e = Some ("child: " +:+ fmt_strings (x_Args x) +:+ ": " +:+ err)
               | None => e = None ∧ WG w' = WG w1 ++ [ChildWaiter x]
               end
           end).
Proof.
  intros Hred.
  destruct (fork_path_effect g closers envMap args stdin stdout stderr w)
    as (e & w' & wq & Hrun & Hq & Hcases).
  assert (Hstart : ∃ ri w1,
             bind_stdin closers stdin args w = Done ri w1
             ∧ match ri with
               | inl err => e = Some err
               | inr (in_, args1) =>
                   let x := forked envMap args1 in_ stdout stderr in
                   match child_Start x with
                   | Some err =>
                       e = Some ("child: " +:+ fmt_strings (x_Args x)
                                 +:+ ": " +:+ err)
                   | None => e = None ∧ WG w' = WG w1 ++ [ChildWaiter x]
                   end
               end).
  { destruct (bind_stdin_quiet closers stdin args w) as (ri & w1 & Hbi & _).
    exists ri, w1. split; [done|]. destruct ri as [err|[in_ args1]].
    - revert Hrun. unfold fork_path. unfold mbind at 1, M_bind at 1.
      rewrite Hbi. unfold_M. by intros [= <- _].
    - destruct (fork_path_started g closers envMap args stdin stdout stderr w
                  in_ args1 w1 stdout args1 w1 Hbi
                  (bind_stdout_redirected closers stdout args1 w1 Hred))
        as (w'' & Heq & _ & Hcase).
      rewrite Hrun in Heq. injection Heq as -> <-. cbv zeta.
      destruct (child_Start (forked envMap args1 in_ stdout stderr))
        as [err|]; [done|].
      rewrite bool_decide_eq_true_2, Hred in Hcase by done.
      by destruct Hcase as (_ & _ & ->). }
  destruct Hq as (Hs & _ & (evs & Ht & Hw & _ & _) & (tasks & Hg & Hf)).
  exists e, w', tasks. split; [done|].
  split; [intros cw; by rewrite fork_path_ignores_Wait|].
  destruct Hcases as [[He ->]|[(-> & Hred' & _)
                               |(-> & _ & x & Hst & Hout & ->)]].
  - rewrite (new_events_app _ _ _ Ht).
    split_and!; [done..| |intros; apply child_waiter_status|done].
    by destruct e.
  - congruence.
  - rewrite (new_events_app w _ evs) by done.
    split_and!; [done..| |intros; apply child_waiter_status|done].
    exists x. simpl. by rewrite Hg, <-app_assoc.
Qed.

Lemma C9_redirected_fork_stage_never_sees_child_exit_witness :
  ∃ w',
    @fork_path Scenarios.collab Scenarios.g 0 ∅ ["false"]
      OsStdin (PipeWrite 0) OsStderr (with_cells [[]] (Scenarios.start []))
    = Done None w'
    ∧ Status w' = None.
Proof.
  destruct (@C9_redirected_fork_stage_never_sees_child_exit Scenarios.collab
              Scenarios.g 0 ∅ ["false"] OsStdin (PipeWrite 0) OsStderr
              (with_cells [[]] (Scenarios.start [])) eq_refl)
    as (e & w' & tasks & Hrun & _ & Hs & _).
  exists w'. split; [|exact Hs].
  rewrite Hrun. vm_compute in Hrun. by injection Hrun as <- _.
Defined.

(** C2 (as amended): on the fork path every source or sink that the
    redirection binder opens is appended to the pipeline's closer list, one
    closer each and in the order of opening, and the stage closes nothing
    itself.  When the composed callable returns (or panics), its deferred
    loop calls [Close] once on each entry of the list, from the first
    appended to the last: the order is that of the appends, not the
    reverse.  For a pipeline of one forked stage the streams closed are
    thus those that were in the list before, followed by those the stage
    opened, in the order it opened them. *)
Theorem C2_one_closer_per_open_drained_in_append_order `{Collaborators}
    (g : Goes) (closers : nat) (envMap : gmap string string)
    (args : list string) (pipeline : list Runfun)
    (stdin stdout stderr : Stream) (w : World) :
  closers < length (cells w) →
  (∃ e w',
     fork_path g closers envMap args stdin stdout stderr w = Done e w'
     ∧ read_closers closers w' = read_closers closers w ++ opened (new_events w w')
     ∧ closes (new_events w w') = [])
  ∧ match pipe_loop pipeline stdin stdout stderr w with
    | OutOfFuel w1 =>
        MakePipefun pipeline closers stdin stdout stderr w = OutOfFuel w1
    | Done _ w1 | Panic _ w1 =>
        new_events w1
          (world_of (MakePipefun pipeline closers stdin stdout stderr w))
        = EvClose <$> read_closers closers w1
    end
  ∧ (∃ e w',
       MakePipefun [fork_path g closers envMap args] closers
         stdin stdout stderr w = Done e w'
       ∧ closes (new_events w w')
         = read_closers closers w ++ opened (new_events w w')).
Proof.
  intros Hlt.
  destruct (fork_path_closers g closers envMap args stdin stdout stderr w Hlt)
    as (e & w' & Hrun & Hc & Hcl).
  split; [by exists e, w'|]. split.
  - unfold MakePipefun, drain.
    destruct (pipe_loop pipeline stdin stdout stderr w) as [e1 w1|msg w1|w1];
      [| |done]; unfold new_events; simpl; by rewrite drop_app_length.
  - unfold MakePipefun. simpl. rewrite Hrun.
    eexists _, _. split; [done|].
    unfold drain, new_events in *. simpl.
    assert (Hpre : ∃ evs, trace w' = trace w ++ evs).
    { destruct (fork_path_effect g closers envMap args stdin stdout stderr w)
        as (e2 & w2 & wq & Hrun2 & Hq & Hcases).
      rewrite Hrun in Hrun2. injection Hrun2 as <- <-.
      destruct Hq as (_ & _ & (evs & Ht & _) & _).
      destruct Hcases as [[_ ->]|[(_ & _ & err & _ & Htr & _)
                                  |(_ & _ & x & _ & _ & ->)]];
        [by eexists| |by eexists].
      rewrite Ht, <-app_assoc in Htr. by eexists. }
    destruct Hpre as [evs Hevs]. rewrite Hevs in *.
    rewrite <-app_assoc, !drop_app_length in *.
    rewrite closes_app, opened_app, Hcl, closes_EvClose, opened_EvClose.
    by rewrite Hc, app_nil_r.
Qed.

Lemma C2_one_closer_per_open_drained_in_append_order_witness :
  ∃ e w',
    @MakePipefun Scenarios.collab
      [@fork_path Scenarios.collab Scenarios.g 0 ∅
         ["somecmd"; "<"; "in"; ">"; "out"]] 0
      OsStdin OsStdout OsStderr (with_cells [[]] (Scenarios.start []))
    = Done e w'
    ∧ closes (new_events (with_cells [[]] (Scenarios.start [])) w')
      = read_closers 0 (with_cells [[]] (Scenarios.start []))
        ++ opened (new_events (with_cells [[]] (Scenarios.start [])) w').
Proof.
  apply (@C2_one_closer_per_open_drained_in_append_order Scenarios.collab
           Scenarios.g 0 ∅ ["somecmd"; "<"; "in"; ">"; "out"] []
           OsStdin OsStdout OsStderr (with_cells [[]] (Scenarios.start []))).
  vm_compute. lia.
Defined.

(** C2, as the specification states it, fails: after [somecmd < in > out] the closer
    list holds the source and then the sink, and the drain closes the
    source first; last-in first-out would close the sink first. *)
Lemma C2_drain_is_first_in_first_out :
  let w := world_of (@Scenarios.run_list Scenarios.collab Scenarios.g
                       Scenarios.in_and_out (Scenarios.start [])) in
  ¬ (closes (trace w) = reverse (read_closers 0 w)).
Proof. vm_compute. discriminate. Qed.

(** The assignments of a forked stage to [Status], by what the binder and
    [Start] did: one, of what [Wait] returns for the child, when both
    halves of the binder succeeded, the child started and stdout is not
    redirected; none in every other case. *)
Lemma fork_path_assigns_Wait `{Collaborators} g closers envMap args
    stdin stdout stderr w :
  ∃ e w' ri w1,
    fork_path g closers envMap args stdin stdout stderr w = Done e w'
    ∧ bind_stdin closers stdin args w = Done ri w1
    ∧ match ri with
      | inl _ =>
          status_writes (new_events w w') = [] ∧ Status w' = Status w
      | inr (in_, args1) =>
          ∃ ro w2,
            bind_stdout closers stdout args1 w1 = Done ro w2
            ∧ match ro with
              | inl _ =>
                  status_writes (new_events w w') = []
                  ∧ Status w' = Status w
              | inr (out, args2) =>
                  let x := forked envMap args2 in_ out stderr in
                  if bool_decide (child_Start x = None)
                     && negb (isStdoutRedirected stdout)
                  then
                    status_writes (new_events w w')
                    = [(child_Wait x (sys_at_Start envMap args2 w2)).1]
                    ∧ Status w'
                      = (child_Wait x (sys_at_Start envMap args2 w2)).1
                  else
                    status_writes (new_events w w') = []
                    ∧ Status w' = Status w
              end
      end.
Proof.
  destruct (bind_stdin_quiet closers stdin args w)
    as (ri & w1 & Hbi & Hs1 & _ & (evs1 & Ht1 & Hw1 & _) & _).
  destruct ri as [err|[in_ args1]].
  { exists (Some err), w1, (inl err), w1. split_and!; [|done| |done].
    - unfold fork_path. unfold mbind at 1, M_bind at 1. by rewrite Hbi.
    - by rewrite (new_events_app _ _ _ Ht1). }
  destruct (bind_stdout_quiet closers stdout args1 w1)
    as (ro & w2 & Hbo & Hs2 & _ & (evs2 & Ht2 & Hw2 & _) & _).
  assert (Ht : trace w2 = trace w ++ (evs1 ++ evs2))
    by (by rewrite Ht2, Ht1, <-app_assoc).
  assert (Hw : status_writes (evs1 ++ evs2) = [])
    by (unfold status_writes in *; by rewrite omap_app, Hw1, Hw2).
  destruct ro as [err|[out args2]].
  { exists (Some err), w2, (inr (in_, args1)), w1. split_and!; [|done|].
    - unfold fork_path. unfold mbind at 1, M_bind at 1. rewrite Hbi.
      unfold mbind at 1, M_bind at 1. by rewrite Hbo.
    - exists (inl err), w2. split; [done|].
      rewrite (new_events_app _ _ _ Ht). split; [done|congruence]. }
  destruct (fork_path_started g closers envMap args stdin stdout stderr w
              in_ args1 w1 out args2 w2 Hbi Hbo) as (w' & Hrun & _ & Hcase).
  eexists _, w', (inr (in_, args1)), w1. split; [exact Hrun|]. split; [done|].
  exists (inr (out, args2)), w2. split; [done|]. cbv zeta.
  destruct (bool_decide (child_Start (forked envMap args2 in_ out stderr) = None)).
  - destruct (isStdoutRedirected stdout); cbn [negb andb].
    + destruct Hcase as (Hs & Htr & _). rewrite <-Htr in Ht.
      rewrite (new_events_app _ _ _ Ht). split; [done|congruence].
    + destruct Hcase as (Hs & Htr & _). rewrite Ht, <-app_assoc in Htr.
      rewrite (new_events_app _ _ _ Htr). unfold status_writes in *.
      rewrite omap_app, Hw. simpl. by rewrite Hs.
  - cbn [andb]. destruct Hcase as (Hs & Htr & _). rewrite <-Htr in Ht.
    rewrite (new_events_app _ _ _ Ht). split; [done|congruence].
Qed.

(** C4 (as amended): a pipeline skipped by short-circuit, and every
    pipeline after it, leaves [Status] and the rest of the state untouched.
    For a pipeline that runs, the list callable assigns its error to
    [Status] when, and only when, that error is not nil.  A forked stage
    assigns [Status] once, the result of [Wait], when its child started and
    its stdout is not redirected; it does not assign it when its stdout is
    redirected or when the binder or [Start] failed.  The value assigned is
    what [Wait] returns for the child that was started, in the state the
    files are in when [Start] is called. *)
Theorem C4_Status_assignments_of_a_list `{Collaborators}
    (g : Goes) (closers : nat) (envMap : gmap string string)
    (args : list string) (stdin stdout stderr : Stream)
    (p : piperun) (rest : list piperun) (err : option error) (w : World) :
  listfun_loop (p :: rest) err true stdin stdout stderr w = Done err w
  ∧ listfun_loop (p :: rest) err false stdin stdout stderr w =
      match pr_f p stdin stdout stderr w with
      | Done e w1 =>
          let w2 := if bool_decide (e ≠ None) then with_Status e w1 else w1 in
          let skipNext :=
            if bool_decide (Status w2 ≠ None)
            then String.eqb (pr_t p) "&&" else String.eqb (pr_t p) "||" in
          listfun_loop rest e skipNext stdin stdout stderr w2
      | Panic msg w1 => Panic msg w1
      | OutOfFuel w1 => OutOfFuel w1
      end
  ∧ (∃ e w',
       fork_path g closers envMap args stdin stdout stderr w = Done e w'
       ∧ status_writes (new_events w w') =
           (if bool_decide (e = None) && negb (isStdoutRedirected stdout)
            then [Status w'] else [])
       ∧ (bool_decide (e = None) && negb (isStdoutRedirected stdout) = false →
          Status w' = Status w))
  ∧ (∃ e w' ri w1,
       fork_path g closers envMap args stdin stdout stderr w = Done e w'
       ∧ bind_stdin closers stdin args w = Done ri w1
       ∧ match ri with
         | inl _ =>
             status_writes (new_events w w') = [] ∧ Status w' = Status w
         | inr (in_, args1) =>
             ∃ ro w2,
               bind_stdout closers stdout args1 w1 = Done ro w2
               ∧ match ro with
                 | inl _ =>
                     status_writes (new_events w w') = []
                     ∧ Status w' = Status w
                 | inr (out, args2) =>
                     let x := forked envMap args2 in_ out stderr in
                     if bool_decide (child_Start x = None)
                        && negb (isStdoutRedirected stdout)
                     then
                       status_writes (new_events w w')
                       = [(child_Wait x (sys_at_Start envMap args2 w2)).1]
                       ∧ Status w'
                         = (child_Wait x (sys_at_Start envMap args2 w2)).1
                     else
                       status_writes (new_events w w') = []
                       ∧ Status w' = Status w
                 end
         end)
  ∧ status_writes
      (trace (@Scenarios.run_list_and_wait Scenarios.collab Scenarios.g
                Scenarios.echo_tr (Scenarios.start [])))
    = [None].
Proof.
  split; [apply listfun_loop_armed|].
  split; [apply listfun_loop_run|].
  split; [apply fork_path_status|].
  split; [apply fork_path_assigns_Wait|].
  by vm_compute.
Qed.

(** C4, as the specification states it, fails: in [echo hello | tr a-z A-Z] both
    stages run to completion, and [Status] is assigned once, by the last
    one; the child of the first is left to a waiter that does not assign
    it. *)
Lemma C4_two_stages_one_assignment :
  let w := @Scenarios.run_list_and_wait Scenarios.collab Scenarios.g
             Scenarios.echo_tr (Scenarios.start []) in
  ¬ (length (status_writes (trace w)) = length (Cmds Scenarios.echo_tr)).
Proof. vm_compute. discriminate. Qed.

(** * More properties of the evaluator *)

(** ** Chains of pipelines *)

Lemma listfun_chain term stop front final err stdin stdout stderr w :
  (∀ w0 : World,
     (if bool_decide (Status w0 ≠ None)
      then String.eqb term "&&" else String.eqb term "||") = stop (Status w0)) →
  listfun_loop (chain term front final) err false stdin stdout stderr w
  = run_until stop (chain term front final) err stdin stdout stderr w.
Proof.
  intros Hstop. unfold chain. revert err w.
  induction front as [|f front IH]; intros err w.
  - cbn [fmap list_fmap app run_until]. rewrite listfun_loop_run.
    destruct (pr_f final stdin stdout stderr w) as [e w1|msg w1|w1]; [|done..].
    cbv zeta. fold (recorded e w1).
    by destruct (stop (Status (recorded e w1))), (bool_decide _),
      (String.eqb _ "&&"), (String.eqb _ "||").
  - cbn [fmap list_fmap app run_until]. rewrite listfun_loop_run. cbn [pr_f pr_t].
    destruct (f stdin stdout stderr w) as [e w1|msg w1|w1]; [|done..].
    cbv zeta. fold (recorded e w1). rewrite Hstop.
    destruct (stop (Status (recorded e w1))); [apply listfun_loop_armed|].
    apply IH.
Qed.

(** X1: the callable of a list joined by [&&] only runs its pipelines in
    order until the first one that leaves [Status] set, and the callable of
    a list joined by [||] only until the first one that leaves [Status]
    nil; each returns the error of the last pipeline it ran, and the
    terminator of the last pipeline of the list plays no part. *)
Theorem and_chains_and_or_chains_stop_at_the_first_decision
    (front : list Runfun) (final : piperun) (stdin stdout stderr : Stream)
    (w : World) :
  MakeListFunc (chain "&&" front final) stdin stdout stderr w
  = run_until (λ st, bool_decide (st ≠ None)) (chain "&&" front final) None
      stdin stdout stderr w
  ∧ MakeListFunc (chain "||" front final) stdin stdout stderr w
    = run_until (λ st, bool_decide (st = None)) (chain "||" front final) None
        stdin stdout stderr w.
Proof.
  split; apply listfun_chain; intros w0; destruct (Status w0); done.
Qed.

(** ** ProcessList *)






(** ** ensureTerminated *)

Lemma scan_terms_terminated cmds term :
  scan_terms term cmds = None →
  existsb (λ cl, negb (is_continuation (cl_Term cl))) cmds = true.
Proof.
  rewrite scan_terms_spec. by destruct (existsb _ cmds).
Qed.

(** X4: when [ensureTerminated] returns a list, that list starts with the
    command lines it was given, in their order, and holds a command line
    whose terminator is none of [&&], [||], [|]: input is only ever
    appended, and a list is not returned while it is open. *)
Theorem ensureTerminated_extends_and_closes_the_list `{Collaborators}
    (fuel : nat) (g : Goes) (ls ls' : List) (w w' : World) :
  ensureTerminated fuel g ls w = Done (inr ls') w' →
  Cmds ls `prefix_of` Cmds ls' ∧ terminated ls' = true.
Proof.
  revert ls w. induction fuel as [|fuel IH]; intros ls w; simpl;
    destruct (scan_terms "" (Cmds ls)) as [term|] eqn:Hscan.
  - done.
  - unfold mret, M_ret. intros [= <- <-].
    split; [done|]. by apply scan_terms_terminated in Hscan.
  - unfold mbind, M_bind.
    destruct (call_Parse_log (term +:+ ">>") w) as (r & w1 & -> & _).
    destruct r as [err|newls]; [done|].
    intros Hrun. destruct (IH _ _ Hrun) as [Hpre Hterm]. split; [|done].
    simpl in Hpre. etrans; [|exact Hpre]. by apply prefix_app_r.
  - unfold mret, M_ret. intros [= <- <-].
    split; [done|]. by apply scan_terms_terminated in Hscan.
Qed.

Lemma ensureTerminated_extends_and_closes_the_list_witness :
  Cmds {| Cmds := [Scenarios.cmdline ["a"] ";"; Scenarios.cmdline ["b"] "&&"] |}
    `prefix_of`
  Cmds {| Cmds := [Scenarios.cmdline ["a"] ";"; Scenarios.cmdline ["b"] "&&"] |}
  ∧ terminated
      {| Cmds := [Scenarios.cmdline ["a"] ";"; Scenarios.cmdline ["b"] "&&"] |}
    = true.
Proof.
  apply (@ensureTerminated_extends_and_closes_the_list Scenarios.collab 2
           Scenarios.g _ _ (Scenarios.start []) (Scenarios.start [])).
  reflexivity.
Defined.

Lemma continuation_sentinel term :
  term = "" ∨ is_continuation term = true → term +:+ ">>" ∈ sentinels.
Proof.
  unfold is_continuation, sentinels.
  intros [->|Ht]; [set_solver|].
  apply orb_true_iff in Ht as [Ht|Ht%String.eqb_eq];
    [apply orb_true_iff in Ht as [Ht%String.eqb_eq|Ht%String.eqb_eq]|];
    subst; set_solver.
Qed.

Lemma scan_terms_continuation cmds term0 term :
  term0 = "" ∨ is_continuation term0 = true →
  scan_terms term0 cmds = Some term →
  term = "" ∨ is_continuation term = true.
Proof.
  revert term0. induction cmds as [|cl rest IH]; intros term0 H0; simpl.
  - by intros [= <-].
  - destruct (is_continuation (cl_Term cl)) eqn:Hc; simpl; [|done].
    apply IH. by right.
Qed.

Lemma ensureTerminated_prompts `{Collaborators} fuel g ls w :
  ∃ l, trace (world_of (ensureTerminated fuel g ls w)) = trace w ++ l
       ∧ Forall (λ p, p ∈ sentinels) (prompts l).
Proof.
  revert ls w. induction fuel as [|fuel IH]; intros ls w; simpl;
    destruct (scan_terms "" (Cmds ls)) as [term|] eqn:Hscan;
    try (exists []; split; [by rewrite app_nil_r|constructor]).
  unfold mbind, M_bind.
  destruct (call_Parse_log (term +:+ ">>") w) as (r & w1 & -> & Hlog).
  assert (Hp : term +:+ ">>" ∈ sentinels).
  { apply continuation_sentinel.
    eapply scan_terms_continuation; [|exact Hscan]. by left. }
  destruct r as [err|newls]; simpl.
  - exists [EvParse (term +:+ ">>")]. split; [done|].
    by apply Forall_singleton.
  - destruct (IH {| Cmds := Cmds ls ++ Cmds newls |} w1) as (l & -> & Hl).
    exists (EvParse (term +:+ ">>") :: l).
    split; [by rewrite Hlog, <-app_assoc|]. by apply Forall_cons.
Qed.

(** X5: whatever the list and whatever the parser delivers, the prompts
    that [ensureTerminated] hands to the parser are continuation sentinels:
    [>>], [||>>], [&&>>] or [|>>]. *)
Theorem ensureTerminated_prompts_are_sentinels `{Collaborators}
    (fuel : nat) (g : Goes) (ls : List) (w : World) :
  Forall (λ p, p ∈ sentinels)
    (prompts (new_events w (world_of (ensureTerminated fuel g ls w)))).
Proof.
  destruct (ensureTerminated_prompts fuel g ls w) as (l & Hl & Hp).
  by rewrite (new_events_app _ _ _ Hl).
Qed.

(** ** ProcessPipeline *)

Lemma ProcessPipeline_loop_last `{Collaborators} fuel g closers ls term acc w :
  ProcessPipeline_loop fuel g closers ls term true acc w
  = Done (inr (ls, term, acc)) w.
Proof. destruct fuel; simpl; by destruct (Cmds ls). Qed.

Lemma plain_stage_inv g cl :
  plain_stage g cl = true →
  ∃ name words, cl_Cmds cl = name :: words
                ∧ ByName g !! name ≫= cmd_Block = None.
Proof.
  unfold plain_stage. destruct (cl_Cmds cl) as [|name words]; [done|].
  destruct (ByName g !! name ≫= cmd_Block) eqn:Hb; [done|]. by eexists _, _.
Qed.

Lemma ProcessPipeline_loop_plain `{Collaborators} g closers cmds :
  ∀ fuel term acc w,
    forallb (plain_stage g) (pipeline_span cmds).1 = true →
    length (pipeline_span cmds).1 ≤ fuel →
    ProcessPipeline_loop fuel g closers {| Cmds := cmds |} term false acc w
    = Done (inr ({| Cmds := (pipeline_span cmds).2 |},
                 default term (cl_Term <$> last (pipeline_span cmds).1),
                 acc ++ ((λ cl, ProcessCommand g cl closers)
                           <$> (pipeline_span cmds).1))) w.
Proof.
  induction cmds as [|cl rest IH]; intros fuel term acc w Hplain Hfuel.
  - destruct fuel; simpl; by rewrite app_nil_r.
  - simpl in Hplain, Hfuel |- *.
    destruct (String.eqb (cl_Term cl) "|") eqn:Hbar.
    + destruct (pipeline_span rest) as [stages residual] eqn:Hspan.
      simpl in Hplain, Hfuel, IH |- *.
      apply andb_true_iff in Hplain as [Hcl Hrest].
      destruct (plain_stage_inv _ _ Hcl) as (name & words & Hwords & Hblock).
      destruct fuel as [|fuel]; [lia|]. simpl.
      rewrite Hwords, Hblock. unfold last_after. rewrite Hbar. simpl.
      rewrite IH by (done || lia). rewrite <-app_assoc. simpl.
      rewrite last_cons. by destruct (last stages).
    + simpl in Hplain, Hfuel |- *.
      apply andb_true_iff in Hplain as [Hcl _].
      destruct (plain_stage_inv _ _ Hcl) as (name & words & Hwords & Hblock).
      destruct fuel as [|fuel]; [lia|]. simpl.
      rewrite Hwords, Hblock. unfold last_after. rewrite Hbar. simpl.
      by rewrite ProcessPipeline_loop_last.
Qed.

(** X6: when no command line of the first pipeline of a list is empty or
    names a [Blocker], [ProcessPipeline] returns, given a budget of one
    round for each command line of that pipeline: the pipeline is the run
    of command lines up to and with the first whose terminator is not [|],
    each of them becomes one stage, in order, all sharing one fresh closer
    list; the residual list is what follows, the terminator is that of the
    last stage, and nothing else of the state changes. *)
Theorem ProcessPipeline_takes_the_run_joined_by_bars `{Collaborators}
    (fuel : nat) (g : Goes) (ls : List) (w : World) :
  forallb (plain_stage g) (pipeline_span (Cmds ls)).1 = true →
  length (pipeline_span (Cmds ls)).1 ≤ fuel →
  ProcessPipeline fuel g ls w
  = Done (inr ({| Cmds := (pipeline_span (Cmds ls)).2 |},
               last_term {| Cmds := (pipeline_span (Cmds ls)).1 |},
               MakePipefun
                 ((λ cl, ProcessCommand g cl (length (cells w)))
                    <$> (pipeline_span (Cmds ls)).1)
                 (length (cells w))))
         (with_cells (cells w ++ [[]]) w).
Proof.
  intros Hplain Hfuel. destruct ls as [cmds]. simpl in *.
  unfold ProcessPipeline, new_closers. unfold mbind at 1, M_bind at 1.
  unfold mbind, M_bind.
  by rewrite (ProcessPipeline_loop_plain g (length (cells w)) cmds).
Qed.

Lemma ProcessPipeline_takes_the_run_joined_by_bars_witness :
  ∃ pipefun,
    @ProcessPipeline Scenarios.collab 2 Scenarios.g
      {| Cmds := [Scenarios.cmdline ["echo"; "hello"] "|";
                  Scenarios.cmdline ["tr"; "a-z"; "A-Z"] "&&";
                  Scenarios.cmdline ["echo"; "done"] ""] |}
      (Scenarios.start [])
    = Done (inr ({| Cmds := [Scenarios.cmdline ["echo"; "done"] ""] |},
                 "&&", pipefun))
           (with_cells [[]] (Scenarios.start [])).
Proof.
  eexists.
  apply (@ProcessPipeline_takes_the_run_joined_by_bars Scenarios.collab 2
           Scenarios.g
           {| Cmds := [Scenarios.cmdline ["echo"; "hello"] "|";
                       Scenarios.cmdline ["tr"; "a-z"; "A-Z"] "&&";
                       Scenarios.cmdline ["echo"; "done"] ""] |}
           (Scenarios.start [])).
  - reflexivity.
  - vm_compute. lia.
Defined.

Lemma ProcessPipeline_loop_empty_cmdline `{Collaborators} g closers front :
  ∀ fuel cl rest term acc w,
    Forall (λ c, plain_stage g c = true ∧ cl_Term c = "|") front →
    cl_Cmds cl = [] →
    length front < fuel →
    ProcessPipeline_loop fuel g closers {| Cmds := front ++ cl :: rest |}
      term false acc w
    = Panic "index out of range" w.
Proof.
  induction front as [|c front IH]; intros fuel cl rest term acc w Hfront Hcl Hfuel;
    (destruct fuel as [|fuel]; [simpl in Hfuel; lia|]); simpl.
  - by rewrite Hcl.
  - apply Forall_cons in Hfront as [[Hc Hbar] Hfront].
    destruct (plain_stage_inv _ _ Hc) as (name & words & Hwords & Hblock).
    rewrite Hwords, Hblock. unfold last_after. rewrite Hbar. simpl.
    apply IH; [done..|]. simpl in Hfuel. lia.
Qed.

(** X7: a command line without a single word makes [ProcessPipeline]
    panic, with an index out of range, as soon as the loop reaches it: that
    is when it is the head of the list or follows stages joined by [|]. *)
Theorem ProcessPipeline_panics_on_a_wordless_command_line `{Collaborators}
    (fuel : nat) (g : Goes) (front rest : list Cmdline) (cl : Cmdline)
    (w : World) :
  Forall (λ c, plain_stage g c = true ∧ cl_Term c = "|") front →
  cl_Cmds cl = [] →
  length front < fuel →
  ProcessPipeline fuel g {| Cmds := front ++ cl :: rest |} w
  = Panic "index out of range" (with_cells (cells w ++ [[]]) w).
Proof.
  intros Hfront Hcl Hfuel.
  unfold ProcessPipeline, new_closers. unfold mbind at 1, M_bind at 1.
  unfold mbind, M_bind.
  by rewrite (ProcessPipeline_loop_empty_cmdline g (length (cells w)) front).
Qed.

Lemma ProcessPipeline_panics_on_a_wordless_command_line_witness :
  @ProcessPipeline Scenarios.collab 2 Scenarios.g
    {| Cmds := [Scenarios.cmdline ["echo"; "hello"] "|";
                Scenarios.cmdline [] ""] |}
    (Scenarios.start [])
  = Panic "index out of range" (with_cells [[]] (Scenarios.start [])).
Proof.
  apply (@ProcessPipeline_panics_on_a_wordless_command_line Scenarios.collab 2
           Scenarios.g [Scenarios.cmdline ["echo"; "hello"] "|"] []
           (Scenarios.cmdline [] "") (Scenarios.start [])).
  - apply Forall_singleton. split; reflexivity.
  - reflexivity.
  - simpl. lia.
Defined.

(** ** MakePipefun *)

(** X8: for a pipeline of N stages that create no pipe of their own, the
    composed callable creates at most N-1 pipes, and exactly N-1 when it
    returns nil: one pipe between each stage and the next, made just
    before the earlier of the two runs, and none once a stage or
    [os.Pipe] has failed. *)
Theorem pipe_loop_makes_a_pipe_between_stages `{Collaborators}
    (pipeline : list Runfun) (stdin stdout stderr : Stream) (w w' : World)
    (r : option error) :
  Forall (λ p : Runfun, ∀ i o e w0 r0 w1,
            p i o e w0 = Done r0 w1 → npipes w1 = npipes w0) pipeline →
  pipe_loop pipeline stdin stdout stderr w = Done r w' →
  npipes w' ≤ npipes w + (length pipeline - 1)
  ∧ (r = None → npipes w' = npipes w + (length pipeline - 1)).
Proof.
  revert stdin w. induction pipeline as [|p rest IH]; intros stdin w Hp; simpl.
  - unfold mret, M_ret. intros [= <- <-]. split; [lia|intros _; lia].
  - apply Forall_cons in Hp as [Hp Hrest].
    destruct rest as [|q rest].
    + intros Hrun. apply Hp in Hrun. simpl. split; [lia|intros _; lia].
    + unfold mbind, M_bind, os_Pipe, mret, M_ret.
      destruct (pipe_err (npipes w)) as [err|].
      { intros [= <- <-]. split; [lia|done]. }
      destruct (p stdin (PipeWrite (npipes w)) stderr _) as [e w1|msg w1|w1] eqn:Hrun;
        [|done..].
      apply Hp in Hrun. simpl in Hrun.
      destruct e as [msg|].
      { intros [= <- <-]. split; [simpl; lia|done]. }
      intros Hloop. apply IH in Hloop; [|done].
      simpl in Hloop |- *. destruct Hloop as [Hle Heq].
      split; [lia|]. intros Hr. specialize (Heq Hr). lia.
Qed.

Lemma pipe_loop_makes_a_pipe_between_stages_witness :
  ∃ r w',
    @pipe_loop Scenarios.collab
      [(λ _ _ _, mret None) : Runfun; λ _ _ _, mret None; λ _ _ _, mret None]
      OsStdin OsStdout OsStderr (Scenarios.start []) = Done r w'
    ∧ npipes w' ≤ npipes (Scenarios.start []) + (3 - 1)
    ∧ (r = None → npipes w' = npipes (Scenarios.start []) + (3 - 1)).
Proof.
  assert (Hrun : ∃ r w',
            @pipe_loop Scenarios.collab
              [(λ _ _ _, mret None) : Runfun; λ _ _ _, mret None;
               λ _ _ _, mret None]
              OsStdin OsStdout OsStderr (Scenarios.start []) = Done r w')
    by (eexists _, _; reflexivity).
  destruct Hrun as (r & w' & Hrun). exists r, w'. split; [exact Hrun|].
  apply (@pipe_loop_makes_a_pipe_between_stages Scenarios.collab
           [(λ _ _ _, mret None) : Runfun; λ _ _ _, mret None; λ _ _ _, mret None]
           OsStdin OsStdout OsStderr (Scenarios.start []) w' r);
    [|exact Hrun].
  repeat constructor; intros i o e w0 r0 w1 [= <- <-]; reflexivity.
Defined.

Lemma fork_path_summary `{Collaborators} g closers envMap args stdin stdout stderr w :
  closers < length (cells w) →
  ∃ e w' evs,
    fork_path g closers envMap args stdin stdout stderr w = Done e w'
    ∧ trace w' = trace w ++ evs
    ∧ closes evs = []
    ∧ read_closers closers w' = read_closers closers w ++ opened evs
    ∧ length (cells w') = length (cells w).
Proof.
  intros Hlt.
  destruct (fork_path_effect g closers envMap args stdin stdout stderr w)
    as (e & w' & wq & Hrun & Hq & Hcases).
  destruct Hq as (_ & Hlen & (evs & Ht & _ & Hc & Ho) & _).
  specialize (Ho Hlt).
  destruct Hcases as [[He ->]|[(-> & Hred & err & Hst & Htr & Hce & _)
                               |(-> & Hred & x & _ & _ & ->)]].
  - by exists e, wq, evs.
  - exists None, w', (evs ++ [EvStatus err]).
    rewrite Ht, <-app_assoc in Htr.
    rewrite closes_app, opened_app, Hc. simpl. rewrite app_nil_r.
    split_and!; [done..| |by rewrite Hce].
    unfold read_closers in *. by rewrite Hce.
  - by exists None, (with_WG (WG wq ++ [ChildWaiter x]) wq), evs.
Qed.

(** The callable of a pipeline of one forked stage. *)
Lemma single_stage_pipefun `{Collaborators} g closers envMap args stdin stdout stderr w :
  closers < length (cells w) →
  ∃ e w' evs,
    MakePipefun [fork_path g closers envMap args] closers stdin stdout stderr w
    = Done e w'
    ∧ trace w' = trace w ++ evs
    ∧ closes evs = read_closers closers w ++ opened evs
    ∧ read_closers closers w' = read_closers closers w ++ opened evs
    ∧ length (cells w') = length (cells w).
Proof.
  intros Hlt.
  destruct (fork_path_summary g closers envMap args stdin stdout stderr w Hlt)
    as (e & wa & evs & Hrun & Ht & Hc & Ho & Hlen).
  unfold MakePipefun. simpl. rewrite Hrun.
  exists e, (drain closers wa), (evs ++ (EvClose <$> read_closers closers wa)).
  split; [done|]. unfold drain. simpl.
  rewrite closes_app, opened_app, closes_EvClose, opened_EvClose, Hc, app_nil_r.
  split_and!; [by rewrite Ht, <-app_assoc|done..].
Qed.

(** X9: the closer list of a pipeline is never emptied.  When the callable
    of a pipeline of one forked stage is called a second time, its drain
    closes what was in the list before the first call and what the first
    call opened once more, and then what the second call opened. *)
Theorem a_second_call_closes_the_streams_of_the_first_again `{Collaborators}
    (g : Goes) (closers : nat) (envMap : gmap string string)
    (args : list string) (stdin stdout stderr : Stream)
    (stdin' stdout' stderr' : Stream) (r1 r2 : option error) (w w1 w2 : World) :
  closers < length (cells w) →
  MakePipefun [fork_path g closers envMap args] closers stdin stdout stderr w
    = Done r1 w1 →
  MakePipefun [fork_path g closers envMap args] closers stdin' stdout' stderr' w1
    = Done r2 w2 →
  closes (new_events w1 w2)
  = read_closers closers w ++ opened (new_events w w1)
    ++ opened (new_events w1 w2).
Proof.
  intros Hlt Hrun1 Hrun2.
  destruct (single_stage_pipefun g closers envMap args stdin stdout stderr w Hlt)
    as (e1 & wa & evs1 & Ha & Ht1 & _ & Ho1 & Hlen1).
  rewrite Hrun1 in Ha. injection Ha as <- <-.
  assert (Hlt1 : closers < length (cells w1)) by lia.
  destruct (single_stage_pipefun g closers envMap args stdin' stdout' stderr' w1 Hlt1)
    as (e2 & wb & evs2 & Hb & Ht2 & Hc2 & _).
  rewrite Hrun2 in Hb. injection Hb as <- <-.
  rewrite (new_events_app _ _ _ Ht1), (new_events_app _ _ _ Ht2).
  by rewrite Hc2, Ho1, <-app_assoc.
Qed.

Lemma a_second_call_closes_the_streams_of_the_first_again_witness :
  ∃ w1 w2,
    closes (new_events w1 w2)
    = read_closers 0 (with_cells [[]] (Scenarios.start []))
      ++ opened (new_events (with_cells [[]] (Scenarios.start [])) w1)
      ++ opened (new_events w1 w2)
    ∧ length (closes (new_events w1 w2)) = 4.
Proof.
  assert (Hrun1 : ∃ r1 w1,
            @MakePipefun Scenarios.collab
              [@fork_path Scenarios.collab Scenarios.g 0 ∅
                 ["somecmd"; "<"; "in"; ">"; "out"]] 0
              OsStdin OsStdout OsStderr (with_cells [[]] (Scenarios.start []))
            = Done r1 w1) by (eexists _, _; reflexivity).
  destruct Hrun1 as (r1 & w1 & Hrun1).
  assert (Hrun2 : ∃ r2 w2,
            @MakePipefun Scenarios.collab
              [@fork_path Scenarios.collab Scenarios.g 0 ∅
                 ["somecmd"; "<"; "in"; ">"; "out"]] 0
              OsStdin OsStdout OsStderr w1
            = Done r2 w2).
  { vm_compute in Hrun1. injection Hrun1 as <- <-. eexists _, _; reflexivity. }
  destruct Hrun2 as (r2 & w2 & Hrun2).
  exists w1, w2. split.
  - apply (@a_second_call_closes_the_streams_of_the_first_again
             Scenarios.collab Scenarios.g 0 ∅
             ["somecmd"; "<"; "in"; ">"; "out"]
             OsStdin OsStdout OsStderr OsStdin OsStdout OsStderr r1 r2
             (with_cells [[]] (Scenarios.start [])) w1 w2);
      [vm_compute; lia|exact Hrun1|exact Hrun2].
  - vm_compute in Hrun1. injection Hrun1 as <- <-.
    vm_compute in Hrun2. injection Hrun2 as <- <-. reflexivity.
Defined.

(** ** The goroutines *)




(** ** More of the command executor *)

(** X11: a command line made of assignments only starts nothing and opens
    nothing.  Its overlay is merged into the dispatcher's environment,
    where each of its names now resolves to the value assigned and every
    other name to what it resolved to before, and [Status] is cleared;
    when there is no assignment either, nothing changes at all, and
    [Status] stays as it was. *)
Theorem ProcessCommand_assignments_persist `{Collaborators}
    (g : Goes) (cl : Cmdline) (closers : nat) (stdin stdout stderr : Stream)
    (w : World) (envMap : gmap string string) :
  Slice cl (λ k, match EnvMap w !! k with
                 | Some x => x
                 | None => os_Getenv k
                 end) = (envMap, []) →
  ∃ w',
    ProcessCommand g cl closers stdin stdout stderr w = Done None w'
    ∧ (∀ k, EnvMap w' !! k = match envMap !! k with
                              | Some v => Some v
                              | None => EnvMap w !! k
                              end)
    ∧ Status w' = (if size envMap =? 0 then Status w else None)
    ∧ new_events w w' = (if size envMap =? 0 then [] else [EvStatus None])
    ∧ WG w' = WG w ∧ cells w' = cells w ∧ sys w' = sys w
    ∧ (size envMap = 0 → w' = w).
Proof.
  intros Hs. unfold ProcessCommand. unfold_M. rewrite Hs.
  destruct (size envMap =? 0) eqn:Hsize; simpl.
  - apply Nat.eqb_eq in Hsize. apply map_size_empty_iff in Hsize as ->.
    exists w. split_and!; try done.
    unfold new_events. by rewrite drop_all.
  - eexists. split; [done|]. simpl. split_and!; try done.
    + intros k. rewrite lookup_union.
      by destruct (envMap !! k), (EnvMap w !! k).
    + unfold new_events. simpl. by rewrite drop_app_length.
    + apply Nat.eqb_neq in Hsize. done.
Qed.

Lemma ProcessCommand_assignments_persist_witness :
  ∃ w',
    @ProcessCommand
      (Build_Collaborators (λ _ _, ({["FOO" := "bar"]}, []))
         Scenarios.parms_New Scenarios.flags_New (λ _ y, (inl "EOF", y))
         (λ _ _, None) (λ _, None) (λ args, args) (λ _, None)
         Scenarios.child_Wait (λ _, "") [] "/usr/bin/goes" (λ _, None)
         (λ _, true) "usage" "")
      Scenarios.g (Scenarios.cmdline ["FOO=bar"] "") 0
      OsStdin OsStdout OsStderr
      (with_Status (Some "exit status 1") (Scenarios.start []))
    = Done None w'
    ∧ EnvMap w' !! "FOO" = Some "bar"
    ∧ Status w' = None.
Proof.
  destruct (@ProcessCommand_assignments_persist
              (Build_Collaborators (λ _ _, ({["FOO" := "bar"]}, []))
                 Scenarios.parms_New Scenarios.flags_New (λ _ y, (inl "EOF", y))
                 (λ _ _, None) (λ _, None) (λ args, args) (λ _, None)
                 Scenarios.child_Wait (λ _, "") [] "/usr/bin/goes" (λ _, None)
                 (λ _, true) "usage" "")
              Scenarios.g (Scenarios.cmdline ["FOO=bar"] "") 0
              OsStdin OsStdout OsStderr
              (with_Status (Some "exit status 1") (Scenarios.start []))
              {["FOO" := "bar"]} eq_refl)
    as (w' & Hrun & Henv & Hst & _).
  exists w'. split; [exact Hrun|]. split.
  - rewrite Henv. reflexivity.
  - rewrite Hst. reflexivity.
Defined.

(** X12: a forked stage whose stdin and stdout are both redirected scans
    its argv for no redirection: it opens nothing, makes no pipe and
    appends no closer, and the child gets the argv as it is, redirection
    tokens included, on the streams the stage was given.  The stage
    returns nil and leaves the child to a waiter, or returns the error of
    [Start]. *)
Theorem a_stage_between_pipes_binds_no_redirection `{Collaborators}
    (g : Goes) (closers : nat) (envMap : gmap string string)
    (args : list string) (stdin stdout stderr : Stream) (w : World) :
  isStdinRedirected stdin = true →
  isStdoutRedirected stdout = true →
  ∃ e w' env,
    let x := {| x_Args := Fork_Args args; x_Env := env; x_Stdin := stdin;
                x_Stdout := stdout; x_Stderr := stderr |} in
    fork_path g closers envMap args stdin stdout stderr w = Done e w'
    ∧ trace w' = trace w ∧ cells w' = cells w ∧ npipes w' = npipes w
    ∧ Status w' = Status w
    ∧ match child_Start x with
      | None => e = None ∧ WG w' = WG w ++ [ChildWaiter x]
      | Some err =>
          e = Some ("child: " +:+ fmt_strings (Fork_Args args) +:+ ": " +:+ err)
          ∧ WG w' = WG w
      end.
Proof.
  intros Hin Hout. unfold fork_path, bind_stdin, bind_stdout.
  rewrite Hin, Hout. cbn [negb]. unfold mbind at 1, M_bind at 1.
  unfold mret at 1, M_ret at 1. unfold mbind at 1, M_bind at 1.
  unfold mret at 1, M_ret at 1.
  set (envStr := if negb (size envMap =? 0)
                 then (λ '(k, v), k +:+ "=" +:+ v) <$> map_to_list envMap
                 else []).
  unfold mbind at 1, M_bind at 1, gets.
  unfold mbind at 1, M_bind at 1.
  destruct (verify_print_sys (VerboseVerify <=? Verbosity w)
              ("+ " +:+ Join envStr " " +:+ " " +:+ Join args " " +:+ nl) w)
    as [y1 ->].
  unfold mbind at 1, M_bind at 1.
  destruct (Fork_quiet g args (with_sys y1 w)) as [y2 ->].
  cbn [x_Args x_Env].
  set (env := if negb (length envStr =? 0)
              then Some (os_Environ ++ envStr) else None).
  destruct (child_Start {| x_Args := Fork_Args args; x_Env := env;
                           x_Stdin := stdin; x_Stdout := stdout;
                           x_Stderr := stderr |}) as [err|] eqn:Hcs;
    eexists _, _, env; cbv zeta; rewrite Hcs; unfold_M; simpl;
    (split; [reflexivity|]); simpl; split_and!; done.
Qed.

Lemma a_stage_between_pipes_binds_no_redirection_witness :
  ∃ w',
    @fork_path Scenarios.collab Scenarios.g 0 ∅
      ["tr"; "a-z"; "A-Z"; ">"; "out"]
      (PipeRead 0) (PipeWrite 1) OsStderr (with_cells [[]] (Scenarios.start []))
    = Done None w'
    ∧ trace w' = []
    ∧ WG w' = [ChildWaiter
                 {| x_Args := ["goes"; "tr"; "a-z"; "A-Z"; ">"; "out"];
                    x_Env := None; x_Stdin := PipeRead 0;
                    x_Stdout := PipeWrite 1; x_Stderr := OsStderr |}].
Proof.
  destruct (@a_stage_between_pipes_binds_no_redirection Scenarios.collab
              Scenarios.g 0 ∅ ["tr"; "a-z"; "A-Z"; ">"; "out"]
              (PipeRead 0) (PipeWrite 1) OsStderr
              (with_cells [[]] (Scenarios.start [])) eq_refl eq_refl)
    as (e & w' & env & Hrun & Ht & _).
  exists w'. rewrite Hrun. vm_compute in Hrun. injection Hrun as <- <-.
  repeat split.
Defined.

Lemma bind_stdin_error `{Collaborators} closers stdin args w err w' :
  bind_stdin closers stdin args w = Done (inl err) w' →
  isStdinRedirected stdin = false
  ∧ ((∃ fn, url_err UrlOpen fn = Some err) ∨ pipe_err (npipes w) = Some err).
Proof.
  unfold bind_stdin.
  destruct (isStdinRedirected stdin); cbn [negb]; [unfold_M; discriminate|].
  destruct (parms_New args ["<"; "<<"; "<<-"]) as [iparm args'].
  intros Hrun. split; [done|]. revert Hrun.
  destruct (0 <? String.length (iparm "<")).
  { unfold url_call, append_closer. unfold_M.
    destruct (url_err UrlOpen (iparm "<")) as [e|] eqn:He; simpl; intros [=].
    subst. left. by eexists. }
  destruct ((0 <? String.length (iparm "<<")) || (0 <? String.length (iparm "<<-")));
    [|unfold_M; discriminate].
  destruct (if String.length (iparm "<<") =? 0
            then (iparm "<<-", true) else (iparm "<<", false)) as [lbl trim].
  unfold os_Pipe, append_closer, go. unfold_M.
  destruct (pipe_err (npipes w)) as [e|]; simpl; intros [=].
  subst. by right.
Qed.

Lemma bind_stdout_error `{Collaborators} closers stdout args w err w' :
  bind_stdout closers stdout args w = Done (inl err) w' →
  isStdoutRedirected stdout = false
  ∧ ∃ fn, url_err UrlCreate fn = Some err ∨ url_err UrlAppend fn = Some err.
Proof.
  unfold bind_stdout.
  destruct (isStdoutRedirected stdout); cbn [negb]; [unfold_M; discriminate|].
  destruct (parms_New args [">"; ">>"; ">>>"; ">>>>"]) as [oparm args'].
  intros Hrun. split; [done|]. revert Hrun.
  unfold url_call, append_closer. unfold_M.
  repeat
    (match goal with
     | |- context [if 0 <? ?n then _ else _] => destruct (0 <? n)
     end;
     [match goal with
      | |- context [url_err ?op ?fn] =>
          destruct (url_err op fn) as [e|] eqn:He; simpl; intros [=];
          subst; exists fn; by (left + right)
      end|]);
  discriminate.
Qed.

(** X13: the error a forked stage returns is never the exit status of its
    child.  It is the error of opening a redirection (when that stream was
    not redirected already), of making the pipe of a here-document, or of
    [Start], the last one after [child: ] and the argv of the child.  A
    stage that returns an error has assigned no [Status], closed nothing
    and left no child to a waiter; a here-document writer started before
    the failure stays. *)
Theorem a_failing_forked_stage_has_started_no_child `{Collaborators}
    (g : Goes) (closers : nat) (envMap : gmap string string)
    (args : list string) (stdin stdout stderr : Stream) (w w' : World)
    (msg : error) :
  fork_path g closers envMap args stdin stdout stderr w = Done (Some msg) w' →
  quiet closers w w'
  ∧ ((isStdinRedirected stdin = false
      ∧ ((∃ fn, url_err UrlOpen fn = Some msg)
         ∨ pipe_err (npipes w) = Some msg))
     ∨ (isStdoutRedirected stdout = false
        ∧ ∃ fn, url_err UrlCreate fn = Some msg
                ∨ url_err UrlAppend fn = Some msg)
     ∨ (∃ x err, child_Start x = Some err
                 ∧ x_Stderr x = stderr
                 ∧ msg = "child: " +:+ fmt_strings (x_Args x) +:+ ": " +:+ err)).
Proof.
  intros Hrun. split.
  { destruct (fork_path_effect g closers envMap args stdin stdout stderr w)
      as (e & w1 & wq & He & Hq & Hcase).
    rewrite Hrun in He. injection He as <- <-.
    destruct Hcase as [[_ ->]|[[? _]|[? _]]]; done. }
  revert Hrun. unfold fork_path. unfold mbind at 1, M_bind at 1.
  destruct (bind_stdin_quiet closers stdin args w) as (ri & w1 & Hbi & _).
  rewrite Hbi. destruct ri as [err|[in_ args1]].
  { unfold_M. intros [= -> ->]. left. by eapply bind_stdin_error. }
  unfold mbind at 1, M_bind at 1.
  destruct (bind_stdout_quiet closers stdout args1 w1) as (ro & w2 & Hbo & _).
  rewrite Hbo. destruct ro as [err|[out args2]].
  { unfold_M. intros [= -> ->]. right. left. by eapply bind_stdout_error. }
  set (envStr := if negb (size envMap =? 0)
                 then (λ '(k, v), k +:+ "=" +:+ v) <$> map_to_list envMap
                 else []).
  unfold mbind at 1, M_bind at 1, gets.
  unfold mbind at 1, M_bind at 1.
  destruct (verify_print_sys (VerboseVerify <=? Verbosity w2)
              ("+ " +:+ Join envStr " " +:+ " " +:+ Join args2 " " +:+ nl) w2)
    as [y1 ->].
  unfold mbind at 1, M_bind at 1.
  destruct (Fork_quiet g args2 (with_sys y1 w2)) as [y2 ->].
  cbn [x_Args x_Env].
  set (x := {| x_Args := Fork_Args args2;
               x_Env := if negb (length envStr =? 0)
                        then Some (os_Environ ++ envStr) else None;
               x_Stdin := in_; x_Stdout := out; x_Stderr := stderr |}).
  destruct (child_Start x) as [err|] eqn:Hstart.
  { unfold_M. intros [= <- <-]. right. right. by exists x, err. }
  unfold mbind at 1, M_bind at 1.
  destruct (negb (isStdoutRedirected stdout)).
  - unfold Wait. unfold_M. destruct (child_Wait x _) as [e y].
    simpl. by destruct (loud e).
  - unfold_M. discriminate.
Qed.

Lemma a_failing_forked_stage_has_started_no_child_witness :
  ∃ w',
    @fork_path read_only Scenarios.g 0 ∅
      ["cat"; "<<"; "EOF"; ">"; "/ro/x"] OsStdin OsStdout OsStderr
      (with_cells [[]] (Scenarios.start []))
    = Done (Some "read-only file system") w'
    ∧ quiet 0 (with_cells [[]] (Scenarios.start [])) w'.
Proof.
  eexists. split; [reflexivity|].
  eapply (@a_failing_forked_stage_has_started_no_child read_only Scenarios.g
            0 ∅ ["cat"; "<<"; "EOF"; ">"; "/ro/x"] OsStdin OsStdout OsStderr).
  reflexivity.
Defined.

Lemma length_0_empty (s : string) : String.length s = 0 → s = "".
Proof. by destruct s. Qed.

(** X14: the only goroutine the stdin half of the binder starts is the
    writer of a here-document, and at most one.  The writer holds the write
    end of the pipe whose read end becomes the stdin of the child, its
    label is not empty, and its prompt is [<< ] whatever the label is:
    the name in the prompt is the value of [<], which is empty whenever a
    here-document is bound. *)
Theorem here_document_prompt_never_names_the_label `{Collaborators}
    (closers : nat) (stdin : Stream) (args : list string) (w w' : World)
    (r : error + Stream * list string) (t : Task) :
  bind_stdin closers stdin args w = Done r w' →
  t ∈ drop (length (WG w)) (WG w') →
  ∃ n lbl trim rest,
    t = HereDocWriter (PipeWrite n) lbl trim "<< "
    ∧ lbl ≠ ""
    ∧ r = inr (PipeRead n, rest)
    ∧ WG w' = WG w ++ [t].
Proof.
  unfold bind_stdin.
  destruct (isStdinRedirected stdin); cbn [negb].
  { unfold_M. intros [= <- <-]. rewrite drop_all. by intros ?%elem_of_nil. }
  destruct (parms_New args ["<"; "<<"; "<<-"]) as [iparm args'].
  destruct (0 <? String.length (iparm "<")) eqn:Hfn.
  { unfold url_call, append_closer. unfold_M.
    destruct (url_err UrlOpen (iparm "<")); simpl; intros [= <- <-]; simpl;
      rewrite drop_all; by intros ?%elem_of_nil. }
  apply Nat.ltb_ge in Hfn.
  assert (Hempty : iparm "<" = "") by (apply length_0_empty; lia).
  rewrite Hempty.
  destruct ((0 <? String.length (iparm "<<")) || (0 <? String.length (iparm "<<-")))
    eqn:Hdoc.
  2:{ unfold_M. intros [= <- <-]. rewrite drop_all. by intros ?%elem_of_nil. }
  assert (Hlbl : ∃ lbl trim,
             (if String.length (iparm "<<") =? 0
              then (iparm "<<-", true) else (iparm "<<", false)) = (lbl, trim)
             ∧ lbl ≠ "").
  { destruct (String.length (iparm "<<") =? 0) eqn:Hl; eexists _, _;
      (split; [done|]); intros Hnil; rewrite Hnil in *;
      apply orb_true_iff in Hdoc as [Hd|Hd]; simpl in *; try done.
    apply Nat.eqb_eq in Hl. rewrite Hl in Hd. done. }
  destruct Hlbl as (lbl & trim & -> & Hne).
  unfold os_Pipe, append_closer, go. unfold_M.
  destruct (pipe_err (npipes w)) as [e|]; simpl; intros [= <- <-]; simpl.
  { rewrite drop_all. by intros ?%elem_of_nil. }
  rewrite drop_app_length. intros ->%list_elem_of_singleton.
  by eexists _, _, _, _.
Qed.

Lemma here_document_prompt_never_names_the_label_witness :
  ∃ n lbl trim rest,
    HereDocWriter (PipeWrite 0) "EOF" true "<< "
    = HereDocWriter (PipeWrite n) lbl trim "<< "
    ∧ lbl ≠ ""
    ∧ (inr (PipeRead 0, ["cat"]) : error + Stream * list string)
      = inr (PipeRead n, rest)
    ∧ [HereDocWriter (PipeWrite 0) "EOF" true "<< "]
      = [] ++ [HereDocWriter (PipeWrite 0) "EOF" true "<< "].
Proof.
  apply (@here_document_prompt_never_names_the_label Scenarios.collab 0
           OsStdin ["cat"; "<<-"; "EOF"] (with_cells [[]] (Scenarios.start []))
           (with_WG [HereDocWriter (PipeWrite 0) "EOF" true "<< "]
              (with_cells [[PipeRead 0]]
                 (log_event (EvPipe (PipeRead 0) (PipeWrite 0))
                    (with_npipes 1 (with_cells [[]] (Scenarios.start []))))))).
  - reflexivity.
  - simpl. apply list_elem_of_singleton. reflexivity.
Defined.

Lemma url_open_urls `{Collaborators} {A} closers op fn (k : Stream → A) w :
  ∃ r w' evs,
    (r ← url_call op fn;
     match r with
     | inl err => mret (inl err)
     | inr rc => append_closer closers rc;; mret (inr (k rc))
     end) w = Done r w'
    ∧ trace w' = trace w ++ evs
    ∧ Forall is_url (opened evs)
    ∧ WG w' = WG w.
Proof.
  unfold url_call, append_closer. unfold_M.
  destruct (url_err op fn) as [err|]; simpl; eexists _, _, [_];
    (split; [done|]); simpl; split_and!; try done.
  by apply Forall_singleton.
Qed.

Lemma bind_stdout_urls `{Collaborators} closers stdout args w :
  ∃ r w' evs,
    bind_stdout closers stdout args w = Done r w'
    ∧ trace w' = trace w ++ evs
    ∧ Forall is_url (opened evs)
    ∧ WG w' = WG w.
Proof.
  unfold bind_stdout.
  destruct (negb (isStdoutRedirected stdout));
    [|exists (inr (stdout, args)), w, []; by rewrite app_nil_r].
  destruct (parms_New args [">"; ">>"; ">>>"; ">>>>"]) as [oparm args'].
  destruct (0 <? String.length (oparm ">")).
  { apply (url_open_urls closers UrlCreate _ (λ wc, (wc, args'))). }
  destruct (0 <? String.length (oparm ">>")).
  { apply (url_open_urls closers UrlAppend _ (λ wc, (wc, args'))). }
  destruct (0 <? String.length (oparm ">>>")).
  { apply (url_open_urls closers UrlCreate _
             (λ wc, (MultiWriter OsStdout wc, args'))). }
  exists (inr (stdout, args')), w, []; by rewrite app_nil_r.
Qed.

(** X15: the last stage of a pipeline, which reads the read end of a pipe
    and writes the inherited stdout, starts no goroutine and closes
    nothing, and the read end does not get into the closer list: what the
    stage appends are streams of [url] calls.  So the read end of the last
    pipe is closed neither by the stage, nor by a waiter, nor by the
    deferred loop of the pipeline, unless the list held it before. *)
Theorem the_last_stage_never_closes_its_pipe `{Collaborators}
    (g : Goes) (closers : nat) (envMap : gmap string string)
    (args : list string) (n : nat) (stdout stderr : Stream) (w w' : World)
    (e : option error) :
  isStdoutRedirected stdout = false →
  closers < length (cells w) →
  fork_path g closers envMap args (PipeRead n) stdout stderr w = Done e w' →
  WG w' = WG w
  ∧ closes (new_events w w') = []
  ∧ Forall is_url (opened (new_events w w'))
  ∧ (PipeRead n ∈ read_closers closers w' → PipeRead n ∈ read_closers closers w).
Proof.
  intros Hout Hlt Hrun.
  destruct (fork_path_closers g closers envMap args (PipeRead n) stdout stderr
              w Hlt) as (e0 & w0 & Hrun0 & Hcl & Hnc).
  rewrite Hrun in Hrun0. injection Hrun0 as <- <-.
  assert (Hshape : WG w' = WG w ∧ Forall is_url (opened (new_events w w'))).
  { clear Hcl Hnc. revert Hrun. unfold fork_path, bind_stdin.
    cbn [isStdinRedirected negb]. unfold mbind at 1, M_bind at 1.
    unfold mret at 1, M_ret at 1. unfold mbind at 1, M_bind at 1.
    destruct (bind_stdout_urls closers stdout args w)
      as (ro & w1 & evs & -> & Ht & Hurl & Hwg).
    destruct ro as [err|[out args1]].
    { unfold_M. intros [= <- <-]. by rewrite (new_events_app _ _ _ Ht). }
    set (envStr := if negb (size envMap =? 0)
                   then (λ '(k, v), k +:+ "=" +:+ v) <$> map_to_list envMap
                   else []).
    unfold mbind at 1, M_bind at 1, gets.
    unfold mbind at 1, M_bind at 1.
    destruct (verify_print_sys (VerboseVerify <=? Verbosity w1)
                ("+ " +:+ Join envStr " " +:+ " " +:+ Join args1 " " +:+ nl) w1)
      as [y1 ->].
    unfold mbind at 1, M_bind at 1.
    destruct (Fork_quiet g args1 (with_sys y1 w1)) as [y2 ->].
    cbn [x_Args x_Env].
    destruct (child_Start _) as [err|].
    { unfold_M. intros [= <- <-]. simpl.
      by rewrite (new_events_app w (with_sys y2 (with_sys y1 w1)) evs). }
    rewrite Hout. cbn [negb]. unfold Wait. unfold_M.
    destruct (child_Wait _ _) as [err y]. simpl.
    destruct (loud err); simpl; intros [= <- <-]; simpl; (split; [done|]);
      unfold new_events; simpl; rewrite Ht, <-app_assoc, drop_app_length;
      unfold opened; rewrite omap_app; simpl; by rewrite app_nil_r. }
  destruct Hshape as [Hwg Hurl]. split_and!; [done..|].
  rewrite Hcl. intros [Hin|Hin]%elem_of_app; [done|].
  rewrite Forall_forall in Hurl. by apply Hurl in Hin.
Qed.

Lemma the_last_stage_never_closes_its_pipe_witness :
  ∃ w',
    @fork_path Scenarios.collab Scenarios.g 0 ∅ ["tr"; "a-z"; "A-Z"; ">"; "out"]
      (PipeRead 0) OsStdout OsStderr
      (with_npipes 1 (with_cells [[]] (Scenarios.start [])))
    = Done None w'
    ∧ WG w' = []
    ∧ closes (new_events (with_npipes 1 (with_cells [[]] (Scenarios.start []))) w')
      = []
    ∧ (PipeRead 0 ∈ read_closers 0 w' → PipeRead 0 ∈ []).
Proof.
  assert (Hrun : ∃ w',
             @fork_path Scenarios.collab Scenarios.g 0 ∅
               ["tr"; "a-z"; "A-Z"; ">"; "out"] (PipeRead 0) OsStdout OsStderr
               (with_npipes 1 (with_cells [[]] (Scenarios.start [])))
             = Done None w')
    by (eexists; vm_compute; reflexivity).
  destruct Hrun as [w' Hrun]. exists w'. split; [exact Hrun|].
  destruct (@the_last_stage_never_closes_its_pipe Scenarios.collab Scenarios.g
              0 ∅ ["tr"; "a-z"; "A-Z"; ">"; "out"] 0 OsStdout OsStderr
              (with_npipes 1 (with_cells [[]] (Scenarios.start []))) w' None
              eq_refl (le_n 1) Hrun) as (Hwg & Hcl & _ & Hin).
  split; [exact Hwg|]. split; [exact Hcl|exact Hin].
Defined.

(** What the stdin half of the binder hands to the child: the stdin of the
    stage, or a source it opened, which is then the last closer of the
    list. *)
Lemma bind_stdin_source `{Collaborators} closers stdin args w :
  closers < length (cells w) →
  ∃ r w1 tasks,
    bind_stdin closers stdin args w = Done r w1
    ∧ WG w1 = WG w ++ tasks ∧ Forall is_writer tasks
    ∧ ∀ in_ rest, r = inr (in_, rest) →
        (in_ = stdin ∧ tasks = [])
        ∨ (in_ ∈ read_closers closers w1 ∧ is_Closer in_ = true
           ∧ in_ ≠ OsStdin).
Proof.
  intros Hlt. unfold bind_stdin.
  destruct (negb (isStdinRedirected stdin)).
  2:{ exists (inr (stdin, args)), w, []. rewrite app_nil_r.
      split_and!; [done..|]. intros ?? [= <- <-]. by left. }
  destruct (parms_New args ["<"; "<<"; "<<-"]) as [iparm args'].
  destruct (0 <? String.length (iparm "<")).
  { unfold url_call, append_closer. unfold_M.
    destruct (url_err UrlOpen (iparm "<")) as [err|]; simpl;
      eexists _, _, []; rewrite app_nil_r; (split_and!; [done..|]);
      intros ?? [= <- <-]. right.
    rewrite (read_closers_alter closers _ w) by done.
    split_and!; [set_solver|done..]. }
  destruct ((0 <? String.length (iparm "<<")) || (0 <? String.length (iparm "<<-"))).
  2:{ exists (inr (stdin, args')), w, []. rewrite app_nil_r.
      split_and!; [done..|]. intros ?? [= <- <-]. by left. }
  destruct (if String.length (iparm "<<") =? 0
            then (iparm "<<-", true) else (iparm "<<", false)) as [lbl trim].
  unfold os_Pipe, append_closer, go. unfold_M.
  destruct (pipe_err (npipes w)) as [err|]; simpl.
  { eexists _, _, []; rewrite app_nil_r; (split_and!; [done..|]).
    intros ?? [=]. }
  eexists _, _, [_]. split_and!; [done..|by apply Forall_singleton|].
  intros ?? [= <- <-]. right. split_and!; [|done..].
  unfold read_closers. simpl. rewrite list_lookup_alter, decide_True by done.
  destruct (lookup_lt_is_Some_2 _ _ Hlt) as [l ->]. simpl. set_solver.
Qed.

(** X16: a stage whose stdout is redirected leaves its child to a waiter.
    When the child does not read the stdin the stage was given but a
    source the binder opened ([< FILE] or a here-document), that source is
    in the closer list of the pipeline and is also among the streams the
    waiter closes: it is closed twice, once by the deferred loop of the
    pipeline callable and once by the waiter. *)
Theorem a_source_bound_before_a_pipe_is_closed_twice `{Collaborators}
    (g : Goes) (closers : nat) (envMap : gmap string string)
    (args : list string) (stdin stdout stderr : Stream) (w w' : World) :
  isStdoutRedirected stdout = true →
  closers < length (cells w) →
  fork_path g closers envMap args stdin stdout stderr w = Done None w' →
  ∃ tasks x,
    WG w' = WG w ++ tasks ++ [ChildWaiter x]
    ∧ Forall is_writer tasks
    ∧ x_Stdout x = stdout
    ∧ (x_Stdin x = stdin ∧ tasks = []
       ∨ x_Stdin x ∈ read_closers closers w'
         ∧ x_Stdin x ∈ task_closes (ChildWaiter x)).
Proof.
  intros Hout Hlt. unfold fork_path. unfold mbind at 1, M_bind at 1.
  destruct (bind_stdin_source closers stdin args w Hlt)
    as (ri & w1 & tasks & -> & Hwg & Hwr & Hsrc).
  destruct ri as [err|[in_ args1]]; [unfold_M; discriminate|].
  specialize (Hsrc in_ args1 eq_refl).
  unfold mbind at 1, M_bind at 1.
  rewrite (bind_stdout_redirected closers stdout args1 w1 Hout).
  set (envStr := if negb (size envMap =? 0)
                 then (λ '(k, v), k +:+ "=" +:+ v) <$> map_to_list envMap
                 else []).
  unfold mbind at 1, M_bind at 1, gets.
  unfold mbind at 1, M_bind at 1.
  destruct (verify_print_sys (VerboseVerify <=? Verbosity w1)
              ("+ " +:+ Join envStr " " +:+ " " +:+ Join args1 " " +:+ nl) w1)
    as [y1 ->].
  unfold mbind at 1, M_bind at 1.
  destruct (Fork_quiet g args1 (with_sys y1 w1)) as [y2 ->].
  cbn [x_Args x_Env].
  set (x := {| x_Args := Fork_Args args1;
               x_Env := if negb (length envStr =? 0)
                        then Some (os_Environ ++ envStr) else None;
               x_Stdin := in_; x_Stdout := stdout; x_Stderr := stderr |}).
  destruct (child_Start x) as [err|]; [unfold_M; discriminate|].
  rewrite Hout. cbn [negb]. unfold_M. intros [= <-]. simpl.
  exists tasks, x. rewrite Hwg, <-app_assoc. split_and!; [done..|].
  destruct Hsrc as [[-> ->]|(Hin & Hc & Hne)]; [by left|right].
  split; [done|]. simpl. rewrite Hc.
  rewrite (bool_decide_eq_true_2 (in_ ≠ OsStdin)) by exact Hne.
  simpl. set_solver.
Qed.

Lemma a_source_bound_before_a_pipe_is_closed_twice_witness :
  ∃ w',
    @fork_path Scenarios.collab Scenarios.g 0 ∅ ["cat"; "<"; "in"]
      OsStdin (PipeWrite 0) OsStderr
      (with_npipes 1 (with_cells [[]] (Scenarios.start [])))
    = Done None w'
    ∧ ∃ tasks x,
        WG w' = [] ++ tasks ++ [ChildWaiter x]
        ∧ Forall is_writer tasks
        ∧ x_Stdout x = PipeWrite 0
        ∧ (x_Stdin x = OsStdin ∧ tasks = []
           ∨ x_Stdin x ∈ read_closers 0 w'
             ∧ x_Stdin x ∈ task_closes (ChildWaiter x)).
Proof.
  assert (Hrun : ∃ w',
             @fork_path Scenarios.collab Scenarios.g 0 ∅ ["cat"; "<"; "in"]
               OsStdin (PipeWrite 0) OsStderr
               (with_npipes 1 (with_cells [[]] (Scenarios.start [])))
             = Done None w')
    by (eexists; vm_compute; reflexivity).
  destruct Hrun as [w' Hrun]. exists w'. split; [exact Hrun|].
  exact (@a_source_bound_before_a_pipe_is_closed_twice Scenarios.collab
           Scenarios.g 0 ∅ ["cat"; "<"; "in"] OsStdin (PipeWrite 0) OsStderr
           (with_npipes 1 (with_cells [[]] (Scenarios.start []))) w'
           eq_refl (le_n 1) Hrun).
Defined.

(** ** More of [Main] *)

Lemma run_and_record (X : M (option error)) w e w' :
  (e ← X; assign_Status e;; mret e) w = Done e w' → Status w' = e.
Proof.
  unfold_M. destruct (X w) as [e0 w0| |]; [|discriminate..].
  by intros [= <- <-].
Qed.

Lemma Main_argv0_done `{Collaborators} g args w :
  ∃ args' w0, Main_argv0 g args w = Done args' w0.
Proof.
  unfold Main_argv0. unfold_M.
  destruct (HasSuffix os_Args0 ".test"); [by eexists _, _|].
  destruct args as [|a0 rest]; [by eexists _, _|].
  destruct (HasSuffix a0 "__debug_bin"); [by eexists _, _|].
  destruct (String.eqb a0 "/proc/self/exe"); by eexists _, _.
Qed.

Lemma Main_cli_records `{Collaborators} g args w e w' :
  Main_cli g args w = Done (inl e) w' → Status w' = e.
Proof.
  unfold Main_cli.
  destruct (flags_New args ["-debug"; "-f"; "-no-liner"; "-x"])
    as [cliFlags cliArgs].
  unfold mbind at 1, M_bind at 1.
  destruct (match ByName g !! "cli" with
            | Some c => if cmd_goeser c then mret () else panic "interface conversion"
            | None => mret ()
            end w) as [[] w0| |] eqn:Hcli; [|discriminate..].
  unfold mbind at 1, M_bind at 1, gets.
  unfold mbind at 1, M_bind at 1.
  destruct ((if cliFlags "-debug" && (Verbosity w0 <? VerboseDebug)
             then modify (with_Verbosity VerboseDebug) else mret ()) w0)
    as [[] w1| |] eqn:Hdbg; [|discriminate..].
  destruct cliArgs as [|a [|b cliArgs]].
  - destruct (ByName g !! "cli") as [c|].
    + unfold_M. destruct (cmd_Main c _ w1) as [e0 w2| |]; [|discriminate..].
      by intros [= <- <-].
    + destruct (ByName g !! "") as [def|].
      * unfold_M. destruct (cmd_Main def _ w1) as [e0 w2| |]; [|discriminate..].
        by intros [= <- <-].
      * unfold_M. by intros [= <- <-].
  - destruct (String.eqb a "-" || _); [|unfold_M; discriminate].
    destruct (ByName g !! "cli") as [c|].
    + unfold_M. destruct (cmd_Main c _ w1) as [e0 w2| |]; [|discriminate..].
      by intros [= <- <-].
    + unfold_M. by intros [= <- <-].
  - unfold_M. discriminate.
Qed.

Lemma Main_run_records `{Collaborators} g args v k w e w' :
  IsDaemon k = false →
  Main_run g args v k w = Done e w' →
  e ≠ None →
  Status w' = e.
Proof.
  intros Hk. unfold Main_run.
  destruct args as [|a0 rest]; [unfold_M; discriminate|].
  rewrite Hk.
  match goal with
  | |- context [if _ then _ else ?c] =>
      assert (Hcont : c w = Done e w' → Status w' = e)
  end.
  { destruct (shift g (a0 :: rest)) as [shifted args'].
    unfold mbind at 1, M_bind at 1, gets.
    unfold mbind at 1, M_bind at 1.
    unfold mbind at 1, M_bind at 1.
    destruct (verify_print_sys (VerboseDebug <=? Verbosity w)
                ("$=" +:+ fmt_error (Status w) +:+ " " +:+ fmt_strings args' +:+ nl)
                w) as [y ->].
    destruct (if shifted then ByName g !! default "" (head args') else v)
      as [c|].
    - unfold_M.
      destruct (cmd_Main c (tail args') (with_sys y w)) as [e0 w2| |];
        [|discriminate..].
      by intros [= <- <-].
    - destruct (ByName g !! "") as [def|].
      + unfold_M.
        destruct (cmd_Main def _ (with_sys y w)) as [e0 w2| |];
          [|discriminate..].
        by intros [= <- <-].
      + unfold_M. by intros [= <- <-]. }
  destruct (Builtins g !! a0) as [builtin|].
  { intros Hrun _. by eapply run_and_record. }
  destruct ((length (a0 :: rest) =? 1) && HasPrefix a0 "-"); [|auto].
  destruct (String.eqb (TrimLeft a0 "-") "apropos").
  { unfold_M. by intros [= <- <-]. }
  destruct (Builtins g !! TrimLeft a0 "-") as [builtin|]; [|auto].
  intros Hrun _. by eapply run_and_record.
Qed.

(** X17: when no command of the registry is a daemon, every error [Main]
    returns is also what it leaves in [Status], whatever the commands and
    builtins it dispatched to have done to the state. *)
Theorem Main_records_the_error_it_returns `{Collaborators}
    (g : Goes) (args : list string) (w w' : World) (e : option error) :
  map_Forall (λ _ c, IsDaemon (cmd_Kind c) = false) (ByName g) →
  Main g args w = Done e w' →
  e ≠ None →
  Status w' = e.
Proof.
  intros Hnd. unfold Main. unfold mbind at 1, M_bind at 1.
  destruct (Main_argv0_done g args w) as (args' & w0 & ->).
  set (v := match args' with
            | a0 :: _ => ByName g !! a0
            | [] => None
            end).
  assert (Hk : IsDaemon match v with
                        | Some c => cmd_Kind c
                        | None => no_Kind
                        end = false).
  { subst v. destruct args' as [|a0 rest]; [done|].
    destruct (ByName g !! a0) as [c|] eqn:Hc; [|done].
    exact (Hnd a0 c Hc). }
  destruct v as [c|] eqn:Hv.
  - by apply Main_run_records.
  - unfold mbind at 1, M_bind at 1.
    destruct (Main_cli g args' w0) as [[e0|args''] w1| |] eqn:Hcli;
      [| |discriminate..].
    + unfold_M. intros [= <- <-] _. by eapply Main_cli_records.
    + by apply Main_run_records.
Qed.

Lemma Main_records_the_error_it_returns_witness :
  ∃ w',
    @Main Scenarios.collab Scenarios.g ["goes"; "nosuch"; "-x"; "y"]
      (Scenarios.start [])
    = Done (Some "nosuch: ambiguous or missing command") w'
    ∧ Status w' = Some "nosuch: ambiguous or missing command".
Proof.
  assert (Hrun : ∃ w',
             @Main Scenarios.collab Scenarios.g ["goes"; "nosuch"; "-x"; "y"]
               (Scenarios.start [])
             = Done (Some "nosuch: ambiguous or missing command") w')
    by (eexists; vm_compute; reflexivity).
  destruct Hrun as [w' Hrun]. exists w'. split; [exact Hrun|].
  apply (@Main_records_the_error_it_returns Scenarios.collab Scenarios.g
           ["goes"; "nosuch"; "-x"; "y"] (Scenarios.start []) w' _).
  - refine (bool_decide_unpack _ _). vm_compute. exact I.
  - exact Hrun.
  - discriminate.
Defined.

(** ** The name of the dispatcher *)

Lemma string_drop_0 s : string_drop 0 s = s.
Proof. by destruct s. Qed.

Lemma prefix_cons (c : ascii) (p s : string) :
  String.prefix (String c p) s = true →
  ∃ s', s = String c s' ∧ String.prefix p s' = true.
Proof.
  destruct s as [|d s']; [discriminate|]. cbn [String.prefix].
  destruct (ascii_dec c d) as [<-|]; [|discriminate]. by exists s'.
Qed.

Lemma HasPrefix_goes s :
  HasPrefix s "goes" = true → s = "goes" +:+ string_drop 4 s.
Proof.
  unfold HasPrefix.
  intros (s1 & -> & (s2 & -> & (s3 & -> & (s4 & -> & _)%prefix_cons)
                       %prefix_cons)%prefix_cons)%prefix_cons.
  done.
Qed.

Lemma Replace_from_goes (s : string) :
  ∀ k, Replace_from k s "goes" = string_drop k s.
Proof.
  induction s as [|c s IH]; intros [|k]; try done.
  - cbn [Replace_from].
    destruct (HasPrefix (String c s) "goes") eqn:Hp.
    + rewrite IH. apply HasPrefix_goes in Hp. cbn [string_drop] in *. done.
    + by rewrite IH, string_drop_0.
  - simpl. apply IH.
Qed.

(** X18: for a dispatcher that has no [NAME] of its own, [String] is
    [goes], and putting that name into a text with [Replace] changes
    nothing in it, wherever and however often [goes] occurs there. *)
Theorem Replace_by_the_name_of_an_unnamed_dispatcher
    (g : Goes) (s : string) :
  NAME g = "" →
  Replace s (Goes_String g) = s.
Proof.
  intros Hn. unfold Goes_String, Replace. rewrite Hn. simpl.
  by rewrite Replace_from_goes, string_drop_0.
Qed.

Lemma Replace_by_the_name_of_an_unnamed_dispatcher_witness :
  Replace "goes-daemons start goesd"
    (Goes_String {| NAME := ""; ByName := ∅; FunctionMap := ∅; Builtins := ∅;
                    Names := [] |})
  = "goes-daemons start goesd".
Proof.
  apply (Replace_by_the_name_of_an_unnamed_dispatcher
           {| NAME := ""; ByName := ∅; FunctionMap := ∅; Builtins := ∅;
              Names := [] |}).
  reflexivity.
Defined.

(** ** Package bootd *)

Lemma index_is_Some (table : list string) (i : Z) :
  is_Some (bootd.index table i) ↔ (0 ≤ i < Z.of_nat (length table))%Z.
Proof.
  unfold bootd.index. destruct (Z.ltb_spec i 0).
  - split; [by intros [? ?]|lia].
  - rewrite lookup_lt_is_Some. lia.
Qed.

(** X19: [installText], [distroText] and [scriptText] have a name for
    exactly the constants of their enumerations.  [bootText] has a name for
    the boot states before [BootStateRebooting] only: its table is one name
    short, and for [BootStateRebooting] and every other index out of the
    table the function panics. *)
Theorem bootText_has_no_name_for_the_last_boot_state (i : Z) :
  (is_Some (bootd.bootText i)
   ↔ (bootd.BootStateNotRegistered ≤ i < bootd.BootStateRebooting)%Z)
  ∧ (is_Some (bootd.installText i)
     ↔ (bootd.InstallStateFactory ≤ i ≤ bootd.InstallStateFactoryFailed)%Z)
  ∧ (is_Some (bootd.distroText i) ↔ i = bootd.Debian)
  ∧ (is_Some (bootd.scriptText i)
     ↔ (bootd.ScriptBootLatest ≤ i ≤ bootd.ScriptInstallDebian)%Z).
Proof.
  unfold bootd.bootText, bootd.installText, bootd.distroText, bootd.scriptText.
  rewrite !index_is_Some. simpl.
  unfold bootd.BootStateNotRegistered, bootd.BootStateRebooting,
    bootd.InstallStateFactory, bootd.InstallStateFactoryFailed, bootd.Debian,
    bootd.ScriptBootLatest, bootd.ScriptInstallDebian.
  lia.
Qed.
